(** * M3 (Maker Market Maker): the matcher of [business/matcher.go]

    A shallow embedding of the book builder ([getBooks]), the arbitrage
    matcher ([arbitrage], [Max]) and the scheduling loop ([run]) together
    with the properties the design document states about them.

    Conventions.
    - [*big.Int] values are [Z] (a pointer that is never nil); [x.Cmp(y)]
      is [bigCmp x y], an integer in {-1, 0, 1} that the code compares with
      0, as in the source.
    - [common.Address] is a 20-byte value, read here as a number.
    - Calls to the collaborators (Market, Atomic, Wallet, Logger) are
      recorded in an explicit state; what the collaborators answer is given
      by an environment indexed by the number of the call.
    - A Go run-time panic (division by zero in [big.Int.Div]) is an outcome
      of its own, distinct from a returned [error]. *)

From Stdlib Require Import ZArith QArith Lia.
From stdpp Require Import gmap strings list fin_maps.

Local Open Scope Z_scope.

(** ** Data model *)

Definition Address := N.
Definition error := string.

Inductive Result (A : Type) : Type :=
| Ok (a : A)
| Err (e : error).
Arguments Ok {A} a.
Arguments Err {A} e.

(** Modelled from the spec: [model.Order] (package [model] is not part of
    the sources at hand). Section 3: buy token, sell token, buy amount and
    sell amount; the field names are those [matcher.go] reads. *)
Record Order := mkOrder {
  BuyToken : Address;
  SellToken : Address;
  BuyAmount : Z;
  SellAmount : Z
}.

(** Modelled from the spec: [model.Fill] and [model.Twin]. Section 3: two
    order fills (token, signed amount) and a settlement cost; the field
    names are those [run] reads. *)
Record Fill := mkFill { Token : Address; Amount : Z }.
Record Twin := mkTwin { First : Fill; Second : Fill; Cost : Z }.

(** [x.Cmp(y)] on big integers. *)
Definition bigCmp (x y : Z) : Z :=
  match x ?= y with
  | Lt => -1
  | Eq => 0
  | Gt => 1
  end.

(** A rate is the fraction sellAmount / buyAmount, kept as numerator and
    denominator. *)
Record Frac := mkFrac { num : Z; den : Z }.

(** Modelled from the spec: [Order.Rate] (package [model]). Section 3:
    [rate = sellAmount / buyAmount]. *)
Definition Rate (o : Order) : Frac :=
  {| num := SellAmount o; den := BuyAmount o |}.

(** Modelled from the spec: the [Cmp] of two rates, the comparison of the
    two fractions. It is computed by cross-multiplication, which is the
    order of the quotients whenever both denominators are positive (lemma
    [Cmp_is_Qcompare] below); section 3 leaves the rate of an order whose
    buy amount is zero undefined. Where a buy amount is not positive, what
    [Cmp] answers is what the cross-multiplication gives and no more than a
    convention of this model. *)
Definition Cmp (x y : Frac) : Z :=
  bigCmp (num x * den y) (num y * den x).

(** The spec's invariant on orders (section 3): a rate needs
    [buyAmount > 0]. *)
Definition validOrder (o : Order) : Prop := 0 < BuyAmount o.

(** ** Book *)

(** Modelled from the spec: [Book] (declared in package [business], in a
    file that is not part of the sources at hand). [Base] and [Quote] are
    the fields [getBooks] sets; [bids] and [asks] hold the orders in
    insertion order. *)
Record Book := mkBook {
  Base : Address;
  Quote : Address;
  bids : list Order;
  asks : list Order
}.

(** Modelled from the spec: [Book.AddBid] and [Book.AddAsk], section 4.1:
    insert an order into the respective collection; equal rates are broken
    by insertion order. *)
Definition AddBid (o : Order) (b : Book) : Book :=
  {| Base := Base b; Quote := Quote b; bids := bids b ++ [o]; asks := asks b |}.

Definition AddAsk (o : Order) (b : Book) : Book :=
  {| Base := Base b; Quote := Quote b; bids := bids b; asks := asks b ++ [o] |}.

(** [extract better l] takes out of [l] the first order that no other
    order of [l] beats: a later order replaces the candidate only if it is
    strictly better. *)
Fixpoint extract (better : Order -> Order -> bool) (l : list Order)
  : option (Order * list Order) :=
  match l with
  | [] => None
  | o :: r =>
      match extract better r with
      | None => Some (o, [])
      | Some (o', r') =>
          if better o' o then Some (o', o :: r') else Some (o, r)
      end
  end.

Definition higherRate (a b : Order) : bool := 0 <? Cmp (Rate a) (Rate b).
Definition lowerRate (a b : Order) : bool := Cmp (Rate a) (Rate b) <? 0.

Definition EmptyBook : error := "EmptyBook".

(** Modelled from the spec: [Book.HighestBid], section 4.1: removes and
    returns the bid with the greatest rate; fails with [EmptyBook] when no
    bids remain. The book is updated in place in the source, so the new
    book is returned with the order. *)
Definition HighestBid (b : Book) : Result (Order * Book) :=
  match extract higherRate (bids b) with
  | None => Err EmptyBook
  | Some (o, r) =>
      Ok (o, {| Base := Base b; Quote := Quote b; bids := r; asks := asks b |})
  end.

(** Modelled from the spec: [Book.LowestAsk], section 4.1: removes and
    returns the ask with the smallest rate; fails with [EmptyBook] when no
    asks remain. *)
Definition LowestAsk (b : Book) : Result (Order * Book) :=
  match extract lowerRate (asks b) with
  | None => Err EmptyBook
  | Some (o, r) =>
      Ok (o, {| Base := Base b; Quote := Quote b; bids := bids b; asks := r |})
  end.

(** All orders of a book satisfy the invariant. *)
Definition validBook (b : Book) : Prop :=
  Forall validOrder (bids b) /\ Forall validOrder (asks b).

(** The orders a list of books holds. *)
Definition ordersOf (books : list Book) : list Order :=
  b ← books; bids b ++ asks b.

(** The number of passes of the per-book loop a book can still take. *)
Definition passes (book : Book) : nat :=
  Nat.min (length (bids book)) (length (asks book)).

(** ** Max (matcher.go, lines 319-328) *)

Definition Max (x y z : Z) : Z :=
  if (0 <=? bigCmp x y) && (0 <=? bigCmp x z) then x
  else if (0 <=? bigCmp y x) && (0 <=? bigCmp y z) then y
  else z.

(** [z.Div(x, y)] of [math/big]: Euclidean division (the remainder is never
    negative); [None] stands for the run-time panic on [y = 0]. *)
Definition bigDiv (x y : Z) : option Z :=
  if y =? 0 then None else Some (Z.sgn y * (x / Z.abs y)).

(** ** Collaborators, state and effects *)

Inductive Level := LvlInfo | LvlWarning | LvlError | LvlCritical.

(** The arguments of a formatted log call. *)
Inductive Arg :=
| ABook (b : Book)
| AAddr (a : Address)
| AInt (z : Z)
| AErr (e : error)
| ALen (n : nat).

Record Entry := mkEntry { level : Level; format : string; args : list Arg }.

(** What the collaborators answer: the [n]-th call of [Market.Orders], of
    [Atomic.Balance] and of [Wallet.Balance]. *)
Record Env := mkEnv {
  marketOrders : nat -> Result (list Order);
  atomicBalance : nat -> Address -> Result Z;
  walletBalance : nat -> Address -> Result Z
}.

(** The state a cycle works on: the slice [twins] of [arbitrage], and the
    calls made so far to the collaborators. *)
Record St := mkSt {
  twins : list Twin;
  orderCalls : nat;
  balanceCalls : list Address;
  walletCalls : list Address;
  logs : list Entry
}.

Inductive Outcome (A : Type) : Type :=
| Returns (a : A) (s : St)
| Panic (s : St)
| OutOfFuel.
Arguments Returns {A} a s.
Arguments Panic {A} s.
Arguments OutOfFuel {A}.

Definition M (A : Type) : Type := St -> Outcome A.

#[global] Instance M_ret : MRet M := fun A a s => Returns a s.
#[global] Instance M_bind : MBind M := fun A B f m s =>
  match m s with
  | Returns a s' => f a s'
  | Panic s' => Panic s'
  | OutOfFuel => OutOfFuel
  end.

Definition panic {A} : M A := fun s => Panic s.
Definition outOfFuel {A} : M A := fun _ => OutOfFuel.

(** The state after one more log entry, after one more call of
    [Atomic.Balance], of [Wallet.Balance] and of [Market.Orders]. *)
Definition logged (s : St) (e : Entry) : St :=
  {| twins := twins s; orderCalls := orderCalls s;
     balanceCalls := balanceCalls s; walletCalls := walletCalls s;
     logs := logs s ++ [e] |}.

Definition asked (s : St) (token : Address) : St :=
  {| twins := twins s; orderCalls := orderCalls s;
     balanceCalls := balanceCalls s ++ [token]; walletCalls := walletCalls s;
     logs := logs s |}.

Definition walletAsked (s : St) (token : Address) : St :=
  {| twins := twins s; orderCalls := orderCalls s;
     balanceCalls := balanceCalls s; walletCalls := walletCalls s ++ [token];
     logs := logs s |}.

Definition ordersAsked (s : St) : St :=
  {| twins := twins s; orderCalls := S (orderCalls s);
     balanceCalls := balanceCalls s; walletCalls := walletCalls s;
     logs := logs s |}.

Definition logf (l : Level) (fmt : string) (a : list Arg) : M unit := fun s =>
  Returns tt (logged s (mkEntry l fmt a)).

Definition Infof := logf LvlInfo.
Definition Warningf := logf LvlWarning.
Definition Errorf := logf LvlError.

Definition setTwins (t : list Twin) : M unit := fun s =>
  Returns tt {| twins := t; orderCalls := orderCalls s;
                balanceCalls := balanceCalls s; walletCalls := walletCalls s;
                logs := logs s |}.

Definition getTwins : M (list Twin) := fun s => Returns (twins s) s.

(** [quoteAsBase.Div(quoteAsBase, ask.BuyAmount)]. *)
Definition Div (x y : Z) : M Z :=
  match bigDiv x y with
  | Some q => mret q
  | None => panic
  end.

(** An empty branch of the source, marked [// TODO execute ...] there. *)
Definition TODO : M unit := mret tt.

(** How one pass through the body of the per-book loop ends: at the end of
    the body (the loop goes on with the book as it now is), at a [break],
    or at a [continue BookLoop]. *)
Inductive Flow :=
| Again (book : Book)
| Break
| ContinueBookLoop.

(** What the body of the per-book loop does with the two candidate trade
    sizes once they are computed (matcher.go, lines 286-312). *)
Definition settle (book : Book) (bid ask : Order) (baseAmount quoteAmount : Z)
  : M Flow :=
  (if bigCmp baseAmount (BuyAmount bid) =? 0 then TODO else mret tt);;
  (if bigCmp quoteAmount (BuyAmount ask) =? 0 then TODO else mret tt);;
  quoteAsBase ← Div (quoteAmount * SellAmount ask) (BuyAmount ask);
  let zero := 0 in
  if (bigCmp baseAmount zero =? 0) && (bigCmp quoteAsBase zero =? 0) then
    Warningf "can't trade marginal amounts: %v & %v" [AInt baseAmount; AInt quoteAmount];;
    mret ContinueBookLoop
  else
    (if 0 <? bigCmp baseAmount quoteAsBase then TODO else TODO);;
    mret (Again book).

Section Matcher.

Variable env : Env.

(** [market.Orders()] *)
Definition Orders : M (Result (list Order)) := fun s =>
  Returns (marketOrders env (orderCalls s)) (ordersAsked s).

(** [m.atomic.Balance(token)] *)
Definition Balance (token : Address) : M (Result Z) := fun s =>
  Returns (atomicBalance env (length (balanceCalls s)) token) (asked s token).

(** [m.wallet.Balance(token)] *)
Definition WalletBalance (token : Address) : M (Result Z) := fun s =>
  Returns (walletBalance env (length (walletCalls s)) token) (walletAsked s token).

(** ** arbitrage (matcher.go, lines 227-317) *)

(** The body of the inner [for] loop, lines 239-312. The two candidates
    are computed at lines 285 and 291 and used from there on. *)
Definition iteration (book : Book) : M Flow :=
  match HighestBid book with
  | Err _ => mret Break
  | Ok (bid, book) =>
  match LowestAsk book with
  | Err _ => mret Break
  | Ok (ask, book) =>
  if Cmp (Rate bid) (Rate ask) <=? 0 then mret Break else
  if negb (BuyToken bid =? SellToken ask)%N then
    Errorf "base token mismatch in book: %v" [ABook book];;
    mret ContinueBookLoop
  else
  let base := BuyToken bid in
  if negb (SellToken bid =? BuyToken ask)%N then
    Errorf "quote token mismatch in book: %v" [ABook book];;
    mret ContinueBookLoop
  else
  let quote := SellToken bid in
  r ← Balance base;
  match r with
  | Err err =>
      Errorf "could not get balance for base token: %v (%v)" [AAddr base; AErr err];;
      mret ContinueBookLoop
  | Ok baseAvailable =>
  r ← Balance quote;
  match r with
  | Err err =>
      Errorf "could not get balance for quote token: %v (%v)" [AAddr quote; AErr err];;
      mret ContinueBookLoop
  | Ok quoteAvailable =>
  let baseAmount := Max baseAvailable (BuyAmount bid) (SellAmount ask) in
  let quoteAmount := Max quoteAvailable (SellAmount bid) (BuyAmount ask) in
  settle book bid ask baseAmount quoteAmount
  end end end end.

(** The inner [for] loop, lines 237-313, with a bound on the number of
    passes. *)
Fixpoint loop (fuel : nat) (book : Book) : M unit :=
  match fuel with
  | O => outOfFuel
  | S fuel =>
      f ← iteration book;
      match f with
      | Again book' => loop fuel book'
      | Break => mret tt
      | ContinueBookLoop => mret tt
      end
  end.

(** Every pass takes a bid out of the book, so one pass more than the book
    has bids is enough. *)
Definition bookLoop (book : Book) : M unit :=
  loop (S (length (bids book))) book.

(** The outer loop [for _, book := range books], lines 234-314. *)
Fixpoint forBooks (books : list Book) : M unit :=
  match books with
  | [] => mret tt
  | book :: rest => bookLoop book;; forBooks rest
  end.

Definition arbitrage (books : list Book) : M (list Twin * option error) :=
  setTwins [];;
  forBooks books;;
  tw ← getTwins;
  mret (tw, None).

End Matcher.

(** ** getBooks (matcher.go, lines 177-225) *)

(** The body of the loop over the orders, lines 189-216. The keys
    [order.BuyToken.Hex() + order.SellToken.Hex()] are two renderings of
    fixed width side by side, so a key determines both addresses: it is the
    pair of the two addresses here. The map holds pointers to books and
    every book is held under one key, so adding an order to a book found in
    the map updates the map at that key. *)
Definition placeOrder (bookSet : gmap (Address * Address) Book) (order : Order)
  : gmap (Address * Address) Book :=
  let bidPair := (BuyToken order, SellToken order) in
  let askPair := (SellToken order, BuyToken order) in
  match bookSet !! bidPair with
  | Some bidBook => <[bidPair := AddBid order bidBook]> bookSet
  | None =>
      match bookSet !! askPair with
      | Some askBook => <[askPair := AddAsk order askBook]> bookSet
      | None =>
          let book := {| Base := BuyToken order; Quote := SellToken order;
                         bids := []; asks := [] |} in
          <[bidPair := AddBid order book]> bookSet
      end
  end.

Definition bookSetOf (orders : list Order) : gmap (Address * Address) Book :=
  foldl placeOrder ∅ orders.

(** [for _, book := range bookSet]: the books of the map, in the order the
    map gives them (Go leaves that order unspecified). *)
Definition booksOf (bookSet : gmap (Address * Address) Book) : list Book :=
  (map_to_list bookSet).*2.

Section Engine.

Variable env : Env.

Definition getBooks : M (Result (list Book)) :=
  r ← Orders env;
  match r with
  | Err err =>
      mret (Err ("could not retrieve orders from market (" +:+ err +:+ ")"))
  | Ok orders => mret (Ok (booksOf (bookSetOf orders)))
  end.

(** ** run (matcher.go, lines 101-172) *)

(** [changes[token]] is created at zero when absent, then the amount is
    added to it (lines 138-143 and 146-151). *)
Definition addChange (changes : gmap Address Z) (f : Fill) : gmap Address Z :=
  <[Token f := default 0 (changes !! Token f) + Amount f]> changes.

(** The loop over the twins, lines 130-152: total cost and change per
    token. *)
Definition aggregate (tw : list Twin) : Z * gmap Address Z :=
  foldl (fun acc twin =>
           (acc.1 + Cost twin,
            addChange (addChange acc.2 (First twin)) (Second twin)))
        (0, ∅) tw.

(** The loop over the changes, lines 156-167. *)
Fixpoint report (changes : list (Address * Z)) : M unit :=
  match changes with
  | [] => mret tt
  | (address, change) :: rest =>
      r ← WalletBalance env address;
      match r with
      | Err err =>
          Warningf "could not get current balance: %v (%v)" [AAddr address; AErr err];;
          report rest
      | Ok balance =>
          Infof "%v: %v (%v)" [AAddr address; AInt balance; AInt change];;
          report rest
      end
  end.

(** A cycle once the books are there, lines 120-169. *)
Definition matchBooks (books : list Book) : M unit :=
  r ← arbitrage env books;
  match r.2 with
  | Some err => Errorf "could not compute arbitrage orders (%v)" [AErr err]
  | None =>
      let tw := r.1 in
      let cost := (aggregate tw).1 in
      let changes := (aggregate tw).2 in
      Infof "executed %v twins for cost of %v wei" [ALen (length tw)];;
      report (map_to_list changes);;
      Infof "total cost: %v wei" [AInt cost]
  end.

(** One pass of the [case <-refresh] branch, lines 111-169. *)
Definition cycle : M unit :=
  r ← getBooks;
  match r with
  | Err err => Errorf "could not get orders (%v)" [AErr err]
  | Ok books => matchBooks books
  end.

(** What the [select] of the loop receives: a value on [done] or a tick on
    [refresh]. *)
Inductive Event := EvDone | EvRefresh.

(** Where the loop is once the events at hand are handled: back at the
    [select], or past the loop. *)
Inductive LoopStatus := Waiting | Exited.

Fixpoint run (events : list Event) : M LoopStatus :=
  match events with
  | [] => mret Waiting
  | EvDone :: _ => mret Exited
  | EvRefresh :: rest => cycle;; run rest
  end.

End Engine.

(** What [getBooks] keeps true of the map: every book is held under the
    key of its base and quote tokens, its bids buy the base for the quote
    and its asks sell the base for the quote. *)
Definition oriented (k : Address * Address) (b : Book) : Prop :=
  k = (Base b, Quote b) /\
  Forall (fun o => BuyToken o = Base b /\ SellToken o = Quote b) (bids b) /\
  Forall (fun o => SellToken o = Base b /\ BuyToken o = Quote b) (asks b).

(** The two entries that close a cycle in which no twin was found. *)
Definition executedNone : Entry :=
  mkEntry LvlInfo "executed %v twins for cost of %v wei" [ALen 0].
Definition totalCostZero : Entry :=
  mkEntry LvlInfo "total cost: %v wei" [AInt 0].

Ltac unfold_M :=
  unfold settle, Div, TODO, Orders, Balance, WalletBalance, Infof, Warningf,
    Errorf, logf, setTwins, getTwins, panic, outOfFuel, mbind, M_bind, mret,
    M_ret in *.

(** ** The scenarios of the design document *)

Definition TokenA : Address := 10%N.
Definition TokenB : Address := 11%N.
Definition TokenC : Address := 12%N.

Definition s0 : St :=
  {| twins := []; orderCalls := 0; balanceCalls := []; walletCalls := []; logs := [] |}.

(** Every balance is [b]; the market has the orders [l]. *)
Definition envOf (l : list Order) (b : Z) : Env :=
  {| marketOrders := fun _ => Ok l;
     atomicBalance := fun _ _ => Ok b;
     walletBalance := fun _ _ => Ok b |}.

(** Scenario 1: a bid buying 100 A for 50 B and an ask selling 80 A for
    30 B. *)
Definition bid1 : Order := mkOrder TokenA TokenB 100 50.
Definition ask1 : Order := mkOrder TokenB TokenA 30 80.
Definition book1 : Book := mkBook TokenA TokenB [bid1] [ask1].

(** A pair with the rates scenario 1 names, 1/2 for the bid and 3/8 for the
    ask, as [Rate] computes them: the ask sells 30 A for 80 B. *)
Definition askC : Order := mkOrder TokenB TokenA 80 30.
Definition bookC : Book := mkBook TokenA TokenB [bid1] [askC].

(** Scenario 3: bid rate 3/10, ask rate 1/2. *)
Definition bid3 : Order := mkOrder TokenA TokenB 10 3.
Definition ask3 : Order := mkOrder TokenB TokenA 2 1.
Definition book3 : Book := mkBook TokenA TokenB [bid3] [ask3].

(** A book whose best ask sells token C where the best bid buys token A. *)
Definition askM : Order := mkOrder TokenB TokenC 80 30.
Definition bookM : Book := mkBook TokenA TokenB [bid3; bid1] [ask3; askM].

(** An order whose buy amount is zero. *)
Definition orderZ : Order := mkOrder TokenA TokenB 0 5.

(** A market that cannot be reached. *)
Definition envDown : Env :=
  {| marketOrders := fun _ => Err "no route to host";
     atomicBalance := fun _ _ => Ok 0;
     walletBalance := fun _ _ => Ok 0 |}.

(** * The rest of [matcher.go] *)

(** ** The matcher and its options (matcher.go, lines 31-76) *)

(** The two fields of [Matcher] the options set: the threshold, a
    [*big.Int], and the refresh interval, a [time.Duration] counted in
    nanoseconds. The other fields are the collaborators and the channel
    [done]. *)
Record Matcher := mkMatcher { threshold : Z; refresh : Z }.

(** [time.Minute] *)
Definition Minute : Z := 60 * 1000000000.

(** [SetRefresh(refresh)] *)
Definition SetRefresh (r : Z) : Matcher -> Matcher :=
  fun m => {| threshold := threshold m; refresh := r |}.

(** [SetThreshold(threshold)]; the argument is a [uint64] and is stored by
    [SetUint64]. *)
Definition SetThreshold (t : N) : Matcher -> Matcher :=
  fun m => {| threshold := Z.of_N t; refresh := refresh m |}.

(** [NewMatcher(log, atomic, options...)]: the defaults, then the options
    in the order given (lines 44-55). *)
Definition NewMatcher (options : list (Matcher -> Matcher)) : Matcher :=
  foldl (fun m option => option m)
        {| threshold := 30000; refresh := Minute |} options.

(** The options the package offers, and what each stands for. *)
Inductive Setting :=
| Refresh (r : Z)
| Threshold (t : N).

Definition optionOf (x : Setting) : Matcher -> Matcher :=
  match x with
  | Refresh r => SetRefresh r
  | Threshold t => SetThreshold t
  end.

(** The last threshold and the last refresh interval a list of settings
    names, if any. *)
Definition lastThreshold (l : list Setting) : option N :=
  last (omap (fun x => match x with Threshold t => Some t | _ => None end) l).

Definition lastRefresh (l : list Setting) : option Z :=
  last (omap (fun x => match x with Refresh r => Some r | _ => None end) l).

(** ** Sums over twins, for the aggregation of [run] *)

Definition zsum (l : list Z) : Z := foldr Z.add 0 l.

(** The fills of a list of twins, first and second of each, in order. *)
Definition fillsOf (tw : list Twin) : list Fill :=
  t ← tw; [First t; Second t].

Definition totalCost (tw : list Twin) : Z := zsum (Cost <$> tw).

(** The sum of the amounts of the fills in one token. *)
Definition netChange (token : Address) (fills : list Fill) : Z :=
  zsum (Amount <$> filter (fun f => Token f = token) fills).

(** Two twins that share the token A. *)
Definition twin1 : Twin :=
  mkTwin (mkFill TokenA 100) (mkFill TokenB (-50)) 21000.
Definition twin2 : Twin :=
  mkTwin (mkFill TokenC 7) (mkFill TokenA (-30)) 42000.

(** ** The events a run handles *)

(** The ticks handled before the first value on [done]. *)
Fixpoint ticks (events : list Event) : nat :=
  match events with
  | [] => 0
  | EvDone :: _ => 0
  | EvRefresh :: rest => S (ticks rest)
  end.

(** The entry [report] logs for the change of one token, given what the
    wallet answers. *)
Definition reportEntry (r : Result Z) (address : Address) (change : Z) : Entry :=
  match r with
  | Err err =>
      mkEntry LvlWarning "could not get current balance: %v (%v)"
        [AAddr address; AErr err]
  | Ok balance =>
      mkEntry LvlInfo "%v: %v (%v)" [AAddr address; AInt balance; AInt change]
  end.

(** ** Orders as bids and asks of a pair *)

(** An order is a bid of the pair [k] when it buys the first token of [k]
    for the second, and an ask of [k] when it sells the first for the
    second and is not a bid of [k] as well. *)
Definition isBid (k : Address * Address) (o : Order) : Prop :=
  (BuyToken o, SellToken o) = k.

Definition isAsk (k : Address * Address) (o : Order) : Prop :=
  (SellToken o, BuyToken o) = k /\ (BuyToken o, SellToken o) <> k.

#[global] Instance isBid_dec k o : Decision (isBid k o).
Proof. unfold isBid. apply _. Defined.

#[global] Instance isAsk_dec k o : Decision (isAsk k o).
Proof. unfold isAsk. apply _. Defined.

(** An order is of the pair [k] when it is a bid of [k] or of [k] turned
    round. *)
Definition touches (k : Address * Address) (o : Order) : Prop :=
  isBid k o \/ isBid (prod_swap k) o.

#[global] Instance touches_dec k o : Decision (touches k o).
Proof. unfold touches. apply _. Defined.

(** The book the orders put under the key [k], told from the orders alone:
    there is one when the first order of the pair is a bid of [k]; its bids
    are the bids of [k] and its asks the asks of [k], in the order in which
    the orders came. *)
Definition bookAt (orders : list Order) (k : Address * Address) : option Book :=
  match head (filter (touches k) orders) with
  | Some o =>
      if decide (isBid k o)
      then Some (mkBook k.1 k.2 (filter (isBid k) orders) (filter (isAsk k) orders))
      else None
  | None => None
  end.

(** A book whose bids all buy its base token for its quote token and whose
    asks all sell it. *)
Definition wellOriented (b : Book) : Prop :=
  Forall (fun o => BuyToken o = Base b /\ SellToken o = Quote b) (bids b) /\
  Forall (fun o => SellToken o = Base b /\ BuyToken o = Quote b) (asks b).

(** The two entries [arbitrage] logs for a pair with mismatched tokens. *)
Definition isMismatch (e : Entry) : Prop :=
  format e = "base token mismatch in book: %v" \/
  format e = "quote token mismatch in book: %v".

(** The sum of the passes all the books can take. *)
Definition allPasses (books : list Book) : nat :=
  foldr (fun b n => (passes b + n)%nat) 0%nat books.

(** What a piece of the matcher adds to the state: [q] to the balance
    queries and [l] to the log, the calls to the market and to the wallet
    being as they were. *)
Definition extended (s s' : St) (q : list Address) (l : list Entry) : Prop :=
  balanceCalls s' = balanceCalls s ++ q /\ logs s' = logs s ++ l /\
  orderCalls s' = orderCalls s /\ walletCalls s' = walletCalls s.

(** Environments in which the first, or the second, balance query fails. *)
Definition envBaseDown : Env :=
  {| marketOrders := fun _ => Ok [];
     atomicBalance := fun n _ => match n with O => Err "timeout" | _ => Ok 1000 end;
     walletBalance := fun _ _ => Ok 0 |}.

Definition envQuoteDown : Env :=
  {| marketOrders := fun _ => Ok [];
     atomicBalance := fun n _ => match n with 1%nat => Err "timeout" | _ => Ok 1000 end;
     walletBalance := fun _ _ => Ok 0 |}.

(** ** Amounts as the design document has them, and a market that is down *)



(** Where the loop is after a run of events, told from the events: past
    the loop when a value came on [done], at the [select] otherwise. *)
Fixpoint statusOf (events : list Event) : LoopStatus :=
  match events with
  | [] => Waiting
  | EvDone :: _ => Exited
  | EvRefresh :: rest => statusOf rest
  end.

(** The state after a cycle in which the market failed with [e]: one call
    to the market more, and the one entry for it in the log. *)
Definition marketFailed (e : error) (s : St) : St :=
  logged (ordersAsked s)
    (mkEntry LvlError "could not get orders (%v)"
       [AErr ("could not retrieve orders from market (" +:+ e +:+ ")")]).


(** * Properties *)

(** ** Comparisons, Max and division *)

Lemma bigCmp_le x y : (bigCmp x y <=? 0) = (x <=? y).
Proof.
  unfold bigCmp. destruct (Z.compare_spec x y); symmetry;
    [apply Z.leb_le | apply Z.leb_le | apply Z.leb_gt]; lia.
Qed.

Lemma bigCmp_ge x y : (0 <=? bigCmp x y) = (y <=? x).
Proof.
  unfold bigCmp. destruct (Z.compare_spec x y); symmetry;
    [apply Z.leb_le | apply Z.leb_gt | apply Z.leb_le]; lia.
Qed.

Lemma bigCmp_gt x y : (0 <? bigCmp x y) = (y <? x).
Proof.
  unfold bigCmp. destruct (Z.compare_spec x y); symmetry;
    [apply Z.ltb_ge | apply Z.ltb_ge | apply Z.ltb_lt]; lia.
Qed.

Lemma bigCmp_eq x y : (bigCmp x y =? 0) = (x =? y).
Proof.
  unfold bigCmp. destruct (Z.compare_spec x y); symmetry;
    [apply Z.eqb_eq | apply Z.eqb_neq | apply Z.eqb_neq]; lia.
Qed.

(** On orders with positive buy amounts, [Cmp] orders the rates as the
    rational numbers sellAmount / buyAmount. *)
Lemma Cmp_is_Qcompare (a b : Order) :
  validOrder a -> validOrder b ->
  Cmp (Rate a) (Rate b) =
  match Qcompare (SellAmount a # Z.to_pos (BuyAmount a))
                 (SellAmount b # Z.to_pos (BuyAmount b)) with
  | Lt => -1 | Eq => 0 | Gt => 1
  end.
Proof.
  unfold validOrder, Cmp, bigCmp, Rate, Qcompare; simpl; intros Ha Hb.
  rewrite !Z2Pos.id by lia. reflexivity.
Qed.

Lemma Max_is_max x y z : Max x y z = Z.max x (Z.max y z).
Proof.
  unfold Max. rewrite !bigCmp_ge.
  destruct (Z.leb_spec y x), (Z.leb_spec z x), (Z.leb_spec x y),
    (Z.leb_spec z y); simpl; lia.
Qed.


(** The base candidate is at least the buy amount of the bid, so it is
    zero only for a bid that asks for nothing (or less). *)
Lemma base_candidate_positive bB bid ask :
  validOrder bid -> 0 < Max bB (BuyAmount bid) (SellAmount ask).
Proof. unfold validOrder. rewrite Max_is_max. lia. Qed.

(** ** Extraction from a book *)

Lemma extract_None better l : extract better l = None <-> l = [].
Proof.
  destruct l as [|o r]; simpl; [tauto|].
  split; [|discriminate].
  destruct (extract better r) as [[o' r']|]; [|discriminate].
  destruct (better o' o); discriminate.
Qed.

Lemma extract_Some better l o r :
  extract better l = Some (o, r) -> l ≡ₚ o :: r.
Proof.
  revert o r. induction l as [|a l IH]; simpl; intros o r H; [discriminate|].
  destruct (extract better l) as [[o' r']|] eqn:E.
  - destruct (better o' a); inversion H; subst; [|reflexivity].
    rewrite (IH _ _ eq_refl). apply Permutation_swap.
  - inversion H; subst. apply extract_None in E. subst. reflexivity.
Qed.

Lemma extract_length better l o r :
  extract better l = Some (o, r) -> length l = S (length r).
Proof.
  intros H. apply extract_Some in H. rewrite H. reflexivity.
Qed.

Lemma HighestBid_Ok book bid book' :
  HighestBid book = Ok (bid, book') ->
  bids book ≡ₚ bid :: bids book' /\ asks book' = asks book /\
  Base book' = Base book /\ Quote book' = Quote book.
Proof.
  unfold HighestBid. destruct (extract higherRate (bids book)) as [[o r]|] eqn:E;
    [|discriminate].
  intros H; inversion H; subst; simpl. split; [|done].
  by apply extract_Some in E.
Qed.

Lemma LowestAsk_Ok book ask book' :
  LowestAsk book = Ok (ask, book') ->
  asks book ≡ₚ ask :: asks book' /\ bids book' = bids book /\
  Base book' = Base book /\ Quote book' = Quote book.
Proof.
  unfold LowestAsk. destruct (extract lowerRate (asks book)) as [[o r]|] eqn:E;
    [|discriminate].
  intros H; inversion H; subst; simpl. split; [|done].
  by apply extract_Some in E.
Qed.

Lemma HighestBid_Err book e :
  HighestBid book = Err e <-> bids book = [] /\ e = EmptyBook.
Proof.
  unfold HighestBid. destruct (extract higherRate (bids book)) as [[o r]|] eqn:E.
  - split; [discriminate|]. intros [H _]. rewrite H in E. discriminate.
  - apply extract_None in E. split; [intros H; inversion H; done|].
    intros [_ ->]. done.
Qed.

Lemma LowestAsk_Err book e :
  LowestAsk book = Err e <-> asks book = [] /\ e = EmptyBook.
Proof.
  unfold LowestAsk. destruct (extract lowerRate (asks book)) as [[o r]|] eqn:E.
  - split; [discriminate|]. intros [H _]. rewrite H in E. discriminate.
  - apply extract_None in E. split; [intros H; inversion H; done|].
    intros [_ ->]. done.
Qed.

(** ** Best-first extraction *)

Lemma Cmp_le_iff x y : Cmp x y <= 0 <-> num x * den y <= num y * den x.
Proof.
  unfold Cmp, bigCmp. destruct (Z.compare_spec (num x * den y) (num y * den x)); lia.
Qed.

Lemma Cmp_gt_iff x y : 0 < Cmp x y <-> num y * den x < num x * den y.
Proof.
  unfold Cmp, bigCmp. destruct (Z.compare_spec (num x * den y) (num y * den x)); lia.
Qed.

Lemma Cmp_lt_iff x y : Cmp x y < 0 <-> num x * den y < num y * den x.
Proof.
  unfold Cmp, bigCmp. destruct (Z.compare_spec (num x * den y) (num y * den x)); lia.
Qed.

Lemma rate_le_trans a b c :
  validOrder a -> validOrder b -> validOrder c ->
  Cmp (Rate a) (Rate b) <= 0 -> Cmp (Rate b) (Rate c) <= 0 ->
  Cmp (Rate a) (Rate c) <= 0.
Proof.
  unfold validOrder. rewrite !Cmp_le_iff. simpl. intros Ha Hb Hc H1 H2.
  apply (Z.mul_le_mono_pos_r _ _ (BuyAmount b)); [done|].
  nia.
Qed.

(** Among orders with positive buy amounts, [extract higherRate] takes an
    order of the greatest rate and [extract lowerRate] one of the smallest. *)
Lemma extract_higherRate l o r :
  Forall validOrder l -> extract higherRate l = Some (o, r) ->
  forall x, x ∈ l -> Cmp (Rate x) (Rate o) <= 0.
Proof.
  revert o r. induction l as [|a l IH]; intros o r Hv H x Hx; [by apply elem_of_nil in Hx|].
  apply Forall_cons in Hv as [Ha Hv]. simpl in H.
  destruct (extract higherRate l) as [[o' r']|] eqn:E.
  - pose proof (extract_Some _ _ _ _ E) as Hp.
    assert (validOrder o') as Ho'.
    { rewrite Forall_forall in Hv. apply Hv. rewrite Hp. apply list_elem_of_here. }
    specialize (IH o' r' Hv eq_refl).
    unfold higherRate in H.
    destruct (Z.ltb_spec 0 (Cmp (Rate o') (Rate a))) as [Hgt|Hle];
      inversion H; subst; apply elem_of_cons in Hx as [->|Hx]; auto.
    + apply Cmp_gt_iff in Hgt. apply Cmp_le_iff. lia.
    + apply Cmp_le_iff. lia.
    + assert (validOrder x) by (rewrite Forall_forall in Hv; auto).
      apply (rate_le_trans x o' o); auto.
  - apply extract_None in E. subst. inversion H; subst.
    apply list_elem_of_singleton in Hx as ->. apply Cmp_le_iff. lia.
Qed.

Lemma extract_lowerRate l o r :
  Forall validOrder l -> extract lowerRate l = Some (o, r) ->
  forall x, x ∈ l -> Cmp (Rate o) (Rate x) <= 0.
Proof.
  revert o r. induction l as [|a l IH]; intros o r Hv H x Hx; [by apply elem_of_nil in Hx|].
  apply Forall_cons in Hv as [Ha Hv]. simpl in H.
  destruct (extract lowerRate l) as [[o' r']|] eqn:E.
  - pose proof (extract_Some _ _ _ _ E) as Hp.
    assert (validOrder o') as Ho'.
    { rewrite Forall_forall in Hv. apply Hv. rewrite Hp. apply list_elem_of_here. }
    specialize (IH o' r' Hv eq_refl).
    unfold lowerRate in H.
    destruct (Z.ltb_spec (Cmp (Rate o') (Rate a)) 0) as [Hlt|Hge];
      inversion H; subst; apply elem_of_cons in Hx as [->|Hx]; auto.
    + apply Cmp_lt_iff in Hlt. apply Cmp_le_iff. lia.
    + apply Cmp_le_iff. lia.
    + assert (validOrder x) by (rewrite Forall_forall in Hv; auto).
      assert (Cmp (Rate o) (Rate o') <= 0).
      { apply Cmp_le_iff. assert (~ Cmp (Rate o') (Rate o) < 0) as Hn by lia.
        rewrite Cmp_lt_iff in Hn. lia. }
      apply (rate_le_trans o o' x); auto.
  - apply extract_None in E. subst. inversion H; subst.
    apply list_elem_of_singleton in Hx as ->. apply Cmp_le_iff. lia.
Qed.

(** ** The body of the per-book loop, case by case *)

Section Iteration.

Variable env : Env.

Lemma settle_frame book bid ask bA qA s :
  match settle book bid ask bA qA s with
  | Returns f s' =>
      twins s' = twins s /\ orderCalls s' = orderCalls s /\
      walletCalls s' = walletCalls s /\ balanceCalls s' = balanceCalls s /\
      (f = Again book \/ f = ContinueBookLoop)
  | Panic s' => s' = s /\ BuyAmount ask = 0
  | OutOfFuel => False
  end.
Proof.
  unfold_M. unfold bigDiv.
  destruct (Z.eqb_spec (BuyAmount ask) 0) as [E|E].
  - repeat (case_match; simpl in *; simplify_eq; try done).
  - repeat (case_match; simpl in *; simplify_eq; try done); auto 10.
Qed.


Lemma settle_nonzero book bid ask bA qA q s :
  bigDiv (qA * SellAmount ask) (BuyAmount ask) = Some q ->
  bA <> 0 \/ q <> 0 ->
  settle book bid ask bA qA s = Returns (Again book) s.
Proof.
  intros Hq Hnz. unfold_M. rewrite Hq. rewrite !bigCmp_eq.
  destruct (Z.eqb_spec bA 0), (Z.eqb_spec q 0); simpl; try lia.
  all: repeat (case_match; simpl in *; simplify_eq; try done).
Qed.

Lemma iteration_no_bid book s e :
  HighestBid book = Err e -> iteration env book s = Returns Break s.
Proof. unfold iteration. by intros ->. Qed.

Lemma iteration_no_ask book s bid b1 e :
  HighestBid book = Ok (bid, b1) -> LowestAsk b1 = Err e ->
  iteration env book s = Returns Break s.
Proof. unfold iteration. by intros -> ->. Qed.

Lemma iteration_no_cross book s bid ask b1 b2 :
  HighestBid book = Ok (bid, b1) -> LowestAsk b1 = Ok (ask, b2) ->
  Cmp (Rate bid) (Rate ask) <= 0 ->
  iteration env book s = Returns Break s.
Proof.
  unfold iteration. intros -> -> H.
  apply Z.leb_le in H. by rewrite H.
Qed.

Lemma iteration_base_mismatch book s bid ask b1 b2 :
  HighestBid book = Ok (bid, b1) -> LowestAsk b1 = Ok (ask, b2) ->
  0 < Cmp (Rate bid) (Rate ask) ->
  BuyToken bid <> SellToken ask ->
  iteration env book s =
  Returns ContinueBookLoop
    (logged s (mkEntry LvlError "base token mismatch in book: %v" [ABook b2])).
Proof.
  unfold iteration. intros -> -> H Hne.
  apply Z.leb_gt in H. rewrite H.
  apply N.eqb_neq in Hne. by rewrite Hne.
Qed.

Lemma iteration_quote_mismatch book s bid ask b1 b2 :
  HighestBid book = Ok (bid, b1) -> LowestAsk b1 = Ok (ask, b2) ->
  0 < Cmp (Rate bid) (Rate ask) ->
  BuyToken bid = SellToken ask ->
  SellToken bid <> BuyToken ask ->
  iteration env book s =
  Returns ContinueBookLoop
    (logged s (mkEntry LvlError "quote token mismatch in book: %v" [ABook b2])).
Proof.
  unfold iteration. intros -> -> H He Hne.
  apply Z.leb_gt in H. rewrite H.
  apply N.eqb_eq in He. rewrite He.
  apply N.eqb_neq in Hne. by rewrite Hne.
Qed.

Lemma iteration_sized book s bid ask b1 b2 bB bQ :
  HighestBid book = Ok (bid, b1) -> LowestAsk b1 = Ok (ask, b2) ->
  0 < Cmp (Rate bid) (Rate ask) ->
  BuyToken bid = SellToken ask ->
  SellToken bid = BuyToken ask ->
  atomicBalance env (length (balanceCalls s)) (BuyToken bid) = Ok bB ->
  atomicBalance env (S (length (balanceCalls s))) (SellToken bid) = Ok bQ ->
  iteration env book s =
  settle b2 bid ask (Max bB (BuyAmount bid) (SellAmount ask))
    (Max bQ (SellAmount bid) (BuyAmount ask))
    (asked (asked s (BuyToken bid)) (SellToken bid)).
Proof.
  unfold iteration. intros -> -> H He1 He2 HB HQ.
  apply Z.leb_gt in H. rewrite H.
  apply N.eqb_eq in He1, He2. rewrite He1, He2. simpl.
  unfold Balance, mbind, M_bind. rewrite HB. simpl.
  rewrite length_app, Nat.add_comm. simpl. rewrite HQ. reflexivity.
Qed.

(** Whatever the book, a pass leaves the twins alone; when the loop goes on
    it has taken one bid and one ask out of the book; and it panics only on
    an ask whose buy amount is zero. *)
Lemma iteration_frame book s :
  match iteration env book s with
  | Returns f s' =>
      twins s' = twins s /\ orderCalls s' = orderCalls s /\
      walletCalls s' = walletCalls s /\
      match f with
      | Again book' =>
          length (bids book) = S (length (bids book')) /\
          length (asks book) = S (length (asks book')) /\
          (forall o, o ∈ bids book' -> o ∈ bids book) /\
          (forall o, o ∈ asks book' -> o ∈ asks book)
      | _ => True
      end
  | Panic s' => twins s' = twins s /\ exists o, o ∈ asks book /\ BuyAmount o = 0
  | OutOfFuel => False
  end.
Proof.
  unfold iteration.
  destruct (HighestBid book) as [[bid b1]|] eqn:Hb; [|done].
  destruct (LowestAsk b1) as [[ask b2]|] eqn:Ha; [|done].
  apply HighestBid_Ok in Hb as (Hb & Hb' & _).
  apply LowestAsk_Ok in Ha as (Ha & Ha' & _).
  destruct (_ <=? 0); [done|].
  destruct (negb _); [done|]. destruct (negb _); [done|]. simpl.
  unfold Balance, mbind, M_bind.
  destruct (atomicBalance env _ _) as [bB|]; [|done].
  destruct (atomicBalance env _ _) as [bQ|]; [|done].
  match goal with |- context [settle ?b ?x ?y ?p ?q ?st] =>
    pose proof (settle_frame b x y p q st) as Hs;
    destruct (settle b x y p q st) as [f s'| s'|] end; [| |done].
  - destruct Hs as (-> & -> & -> & _ & [->| ->]); simpl; [|done].
    split_and!; try done.
    + rewrite Hb, Ha'. done.
    + rewrite <- Hb', Ha. done.
    + intros o Ho. rewrite Hb, <- Ha'. set_solver.
    + intros o Ho. rewrite <- Hb', Ha. set_solver.
  - destruct Hs as (-> & Hz). simpl. split; [done|].
    exists ask. split; [|done]. rewrite <- Hb', Ha. set_solver.
Qed.

End Iteration.

(** ** The loops *)

Section Loops.

Variable env : Env.

Lemma loop_fuel fuel1 fuel2 book s :
  (passes book < fuel1)%nat -> (passes book < fuel2)%nat ->
  loop env fuel1 book s = loop env fuel2 book s /\
  loop env fuel1 book s <> OutOfFuel.
Proof.
  unfold passes. revert fuel2 book s.
  induction fuel1 as [|n IH]; intros [|m] book s H1 H2; try lia.
  simpl. unfold mbind, M_bind.
  pose proof (iteration_frame env book s) as Hf.
  destruct (iteration env book s) as [f s'|s'|]; [|done|done].
  destruct f as [book'| |]; [|done|done].
  destruct Hf as (_ & _ & _ & Hb & Ha & _).
  apply IH; lia.
Qed.

Lemma loop_frame fuel book s :
  match loop env fuel book s with
  | Returns _ s' =>
      twins s' = twins s /\ orderCalls s' = orderCalls s /\
      walletCalls s' = walletCalls s
  | Panic s' =>
      twins s' = twins s /\ exists o, o ∈ asks book /\ BuyAmount o = 0
  | OutOfFuel => True
  end.
Proof.
  revert book s. induction fuel as [|n IH]; intros book s; [done|].
  simpl. unfold mbind, M_bind.
  pose proof (iteration_frame env book s) as Hf.
  destruct (iteration env book s) as [f s'|s'|]; [|done|done].
  destruct Hf as (Ht & Ho & Hw & Hf).
  destruct f as [book'| |]; [|done|done].
  destruct Hf as (_ & _ & _ & Hin).
  specialize (IH book' s').
  destruct (loop env n book' s') as [u s''|s''|]; [| |done].
  - destruct IH as (-> & -> & ->). done.
  - destruct IH as (-> & o & Hi & Hz). split; [done|]. exists o. auto.
Qed.

Lemma bookLoop_frame book s :
  match bookLoop env book s with
  | Returns _ s' =>
      twins s' = twins s /\ orderCalls s' = orderCalls s /\
      walletCalls s' = walletCalls s
  | Panic s' =>
      twins s' = twins s /\ exists o, o ∈ asks book /\ BuyAmount o = 0
  | OutOfFuel => False
  end.
Proof.
  unfold bookLoop.
  pose proof (loop_frame (S (length (bids book))) book s) as Hf.
  destruct (loop_fuel (S (length (bids book))) (S (length (bids book))) book s)
    as [_ Hne]; [unfold passes; lia..|].
  destruct (loop env _ book s); done.
Qed.

Lemma forBooks_frame books s :
  match forBooks env books s with
  | Returns _ s' =>
      twins s' = twins s /\ orderCalls s' = orderCalls s /\
      walletCalls s' = walletCalls s
  | Panic s' =>
      twins s' = twins s /\
      exists b o, b ∈ books /\ o ∈ asks b /\ BuyAmount o = 0
  | OutOfFuel => False
  end.
Proof.
  revert s. induction books as [|book rest IH]; intros s; [done|].
  simpl. unfold mbind, M_bind.
  pose proof (bookLoop_frame book s) as Hf.
  destruct (bookLoop env book s) as [u s'|s'|]; [| |done].
  - destruct Hf as (Ht & Ho & Hw). specialize (IH s').
    destruct (forBooks env rest s') as [u' s''|s''|]; [| |done].
    + destruct IH as (-> & -> & ->). done.
    + destruct IH as (-> & b & o & Hb & Hi & Hz). split; [done|].
      exists b, o. set_solver.
  - destruct Hf as (Ht & o & Hi & Hz). split; [done|].
    exists book, o. set_solver.
Qed.

(** [arbitrage] never hands back a twin or an error: it returns the empty
    list and [nil], unless a division by zero stops it. *)
Lemma arbitrage_outcome books s :
  match arbitrage env books s with
  | Returns r s' =>
      r = ([], None) /\ twins s' = [] /\ orderCalls s' = orderCalls s /\
      walletCalls s' = walletCalls s
  | Panic _ => exists b o, b ∈ books /\ o ∈ asks b /\ BuyAmount o = 0
  | OutOfFuel => False
  end.
Proof.
  unfold arbitrage, setTwins, getTwins, mbind, M_bind, mret, M_ret.
  match goal with |- context [forBooks env books ?st] =>
    pose proof (forBooks_frame books st) as Hf;
    destruct (forBooks env books st) as [u s'|s'|] end; [| |done].
  - simpl in Hf. destruct Hf as (-> & -> & ->). done.
  - tauto.
Qed.

Lemma arbitrage_valid books s :
  Forall validBook books ->
  exists s', arbitrage env books s = Returns ([], None) s' /\
             twins s' = [] /\ orderCalls s' = orderCalls s /\
             walletCalls s' = walletCalls s.
Proof.
  intros Hv. pose proof (arbitrage_outcome books s) as Ho.
  destruct (arbitrage env books s) as [r s'|s'|]; [| |done].
  - destruct Ho as (-> & Ho). by exists s'.
  - destruct Ho as (b & o & Hb & Hi & Hz).
    rewrite Forall_forall in Hv. destruct (Hv b Hb) as [_ Ha].
    rewrite Forall_forall in Ha. specialize (Ha o Hi).
    unfold validOrder in Ha. lia.
Qed.

End Loops.

(** ** The book builder *)

Lemma ordersOf_cons b books :
  ordersOf (b :: books) = (bids b ++ asks b) ++ ordersOf books.
Proof. reflexivity. Qed.

#[local] Instance ordersOf_perm : Proper ((≡ₚ) ==> (≡ₚ)) ordersOf.
Proof. intros l1 l2 H. unfold ordersOf. by rewrite H. Qed.

#[local] Instance booksOf_perm_snd :
  Proper ((≡ₚ) ==> (≡ₚ)) (fmap (M := list) (@snd (Address * Address) Book)).
Proof. intros l1 l2 H. by rewrite H. Qed.

Lemma elem_of_ordersOf o books :
  o ∈ ordersOf books <-> exists b, b ∈ books /\ (o ∈ bids b \/ o ∈ asks b).
Proof.
  unfold ordersOf. rewrite list_elem_of_bind.
  split; intros (b & H1 & H2); exists b.
  - rewrite elem_of_app in H1. tauto.
  - rewrite elem_of_app. tauto.
Qed.

Lemma booksOf_insert_fresh (m : gmap (Address * Address) Book) k b :
  m !! k = None -> booksOf (<[k := b]> m) ≡ₚ b :: booksOf m.
Proof.
  intros H. unfold booksOf. by rewrite map_to_list_insert.
Qed.

Lemma booksOf_delete (m : gmap (Address * Address) Book) k b :
  m !! k = Some b -> booksOf m ≡ₚ b :: booksOf (delete k m).
Proof.
  intros H. unfold booksOf. by rewrite <- (map_to_list_delete m k b H).
Qed.

Lemma booksOf_insert_present (m : gmap (Address * Address) Book) k b0 b :
  m !! k = Some b0 -> booksOf (<[k := b]> m) ≡ₚ b :: booksOf (delete k m).
Proof.
  intros H. rewrite <- insert_delete_eq.
  apply booksOf_insert_fresh, lookup_delete_eq.
Qed.

Lemma perm_bid (x y z : list Order) o :
  ((x ++ [o]) ++ y) ++ z ≡ₚ o :: (x ++ y) ++ z.
Proof. rewrite <- !app_assoc. simpl. by rewrite <- Permutation_middle. Qed.

Lemma perm_ask (x y z : list Order) o :
  (x ++ y ++ [o]) ++ z ≡ₚ o :: (x ++ y) ++ z.
Proof.
  rewrite <- !app_assoc. simpl.
  rewrite (app_assoc x y (o :: z)), <- Permutation_middle.
  by rewrite <- app_assoc.
Qed.

Lemma placeOrder_orders (m : gmap (Address * Address) Book) o :
  ordersOf (booksOf (placeOrder m o)) ≡ₚ o :: ordersOf (booksOf m).
Proof.
  unfold placeOrder.
  destruct (m !! (BuyToken o, SellToken o)) as [b|] eqn:Hb.
  - rewrite (booksOf_insert_present _ _ _ _ Hb), (booksOf_delete _ _ _ Hb).
    rewrite !ordersOf_cons. simpl. apply perm_bid.
  - destruct (m !! (SellToken o, BuyToken o)) as [b|] eqn:Ha.
    + rewrite (booksOf_insert_present _ _ _ _ Ha), (booksOf_delete _ _ _ Ha).
      rewrite !ordersOf_cons. simpl. apply perm_ask.
    + rewrite (booksOf_insert_fresh _ _ _ Hb). by rewrite ordersOf_cons.
Qed.

Lemma foldl_placeOrder_orders (m : gmap (Address * Address) Book) orders :
  ordersOf (booksOf (foldl placeOrder m orders)) ≡ₚ ordersOf (booksOf m) ++ orders.
Proof.
  revert m. induction orders as [|o l IH]; intros m; simpl.
  - by rewrite app_nil_r.
  - rewrite IH, placeOrder_orders. by rewrite <- Permutation_middle.
Qed.

Lemma bookSetOf_orders orders :
  ordersOf (booksOf (bookSetOf orders)) ≡ₚ orders.
Proof.
  unfold bookSetOf. rewrite foldl_placeOrder_orders.
  unfold booksOf. by rewrite map_to_list_empty.
Qed.

Lemma bookSetOf_snoc orders order :
  bookSetOf (orders ++ [order]) = placeOrder (bookSetOf orders) order.
Proof. unfold bookSetOf. by rewrite foldl_app. Qed.

Lemma placeOrder_oriented (m : gmap (Address * Address) Book) o :
  map_Forall oriented m -> map_Forall oriented (placeOrder m o).
Proof.
  intros Hm. unfold placeOrder.
  destruct (m !! (BuyToken o, SellToken o)) as [b|] eqn:Hb.
  - apply map_Forall_insert_2; [|done].
    destruct (Hm _ _ Hb) as (Hk & H1 & H2).
    pose proof Hk as Hk'. injection Hk' as E1 E2.
    split_and!; simpl; try done.
    apply Forall_app. split; [done|]. by repeat constructor.
  - destruct (m !! (SellToken o, BuyToken o)) as [b|] eqn:Ha.
    + apply map_Forall_insert_2; [|done].
      destruct (Hm _ _ Ha) as (Hk & H1 & H2).
      pose proof Hk as Hk'. injection Hk' as E1 E2.
      split_and!; simpl; try done.
      apply Forall_app. split; [done|]. by repeat constructor.
    + apply map_Forall_insert_2; [|done].
      split_and!; simpl; try done. by repeat constructor.
Qed.

Lemma bookSetOf_oriented orders : map_Forall oriented (bookSetOf orders).
Proof.
  unfold bookSetOf.
  assert (forall m, map_Forall oriented m ->
                    map_Forall oriented (foldl placeOrder m orders)) as H.
  { induction orders as [|o l IH]; intros m Hm; simpl; [done|].
    by apply IH, placeOrder_oriented. }
  apply H, map_Forall_empty.
Qed.

Lemma bookSetOf_valid orders :
  Forall validOrder orders -> Forall validBook (booksOf (bookSetOf orders)).
Proof.
  intros Hv. rewrite Forall_forall in Hv.
  apply Forall_forall. intros b Hb.
  split; apply Forall_forall; intros o Ho; apply Hv;
    rewrite <- (bookSetOf_orders orders); apply elem_of_ordersOf;
    exists b; auto.
Qed.

(** ** A cycle and the scheduling loop *)

Section Cycle.

Variable env : Env.

Lemma getBooks_eq s :
  getBooks env s =
  Returns
    match marketOrders env (orderCalls s) with
    | Ok orders => Ok (booksOf (bookSetOf orders))
    | Err err => Err ("could not retrieve orders from market (" +:+ err +:+ ")")
    end
    (ordersAsked s).
Proof.
  unfold getBooks, Orders, mbind, M_bind.
  by destruct (marketOrders env (orderCalls s)).
Qed.

Lemma report_returns changes s :
  exists s', report env changes s = Returns tt s'.
Proof.
  revert s. induction changes as [|[a c] l IH]; intros s; simpl.
  - by exists s.
  - unfold_M. destruct (walletBalance env _ _); simpl; apply IH.
Qed.

Lemma matchBooks_valid books s :
  Forall validBook books ->
  exists s1, arbitrage env books s = Returns ([], None) s1 /\
             matchBooks env books s =
             Returns tt (logged (logged s1 executedNone) totalCostZero).
Proof.
  intros Hv. destruct (arbitrage_valid env books s Hv) as (s1 & Ha & _).
  exists s1. split; [done|].
  unfold matchBooks, mbind, M_bind. rewrite Ha. simpl.
  unfold aggregate. simpl. by rewrite map_to_list_empty.
Qed.

Lemma matchBooks_outcome books s :
  match matchBooks env books s with
  | Returns _ _ => True
  | Panic _ => exists b o, b ∈ books /\ o ∈ asks b /\ BuyAmount o = 0
  | OutOfFuel => False
  end.
Proof.
  unfold matchBooks, mbind, M_bind.
  pose proof (arbitrage_outcome env books s) as Ho.
  destruct (arbitrage env books s) as [r s'|s'|]; [|done|done].
  destruct Ho as (-> & _). simpl.
  unfold aggregate. simpl. by rewrite map_to_list_empty.
Qed.

Lemma cycle_outcome s :
  match cycle env s with
  | Returns _ _ => True
  | Panic _ =>
      exists orders o, marketOrders env (orderCalls s) = Ok orders /\
                       o ∈ orders /\ BuyAmount o = 0
  | OutOfFuel => False
  end.
Proof.
  unfold cycle, mbind, M_bind. rewrite getBooks_eq.
  destruct (marketOrders env (orderCalls s)) as [orders|e] eqn:Hm; [|done].
  pose proof (matchBooks_outcome (booksOf (bookSetOf orders)) (ordersAsked s)) as Ho.
  destruct (matchBooks env _ _) as [u s'|s'|]; [done| |done].
  destruct Ho as (b & o & Hb & Hi & Hz).
  exists orders, o. split_and!; try done.
  rewrite <- (bookSetOf_orders orders). apply elem_of_ordersOf. eauto.
Qed.

(** The loop is past its [for] only when a value arrived on [done]; it
    stops otherwise only on the panic of a division by zero. *)
Lemma run_outcome events s :
  match run env events s with
  | Returns st _ => st = Exited <-> EvDone ∈ events
  | Panic _ =>
      exists n orders o, marketOrders env n = Ok orders /\
                         o ∈ orders /\ BuyAmount o = 0
  | OutOfFuel => False
  end.
Proof.
  revert s. induction events as [|[|] rest IH]; intros s; simpl.
  - split; [done|]. by intros ?%elem_of_nil.
  - split; [|done]. intros _. apply list_elem_of_here.
  - unfold mbind, M_bind. pose proof (cycle_outcome s) as Hc.
    destruct (cycle env s) as [u s'|s'|]; [| |done].
    + specialize (IH s'). destruct (run env rest s') as [st s''| |]; [|done|done].
      rewrite IH. rewrite elem_of_cons. split; [auto|]. by intros [?|?].
    + destruct Hc as (orders & o & H). eauto.
Qed.

End Cycle.

(** ** What a panic takes *)


Section PanicCause.

Variable env : Env.






(** A cycle in which the market fails. *)
Lemma cycle_market_failed s e :
  marketOrders env (orderCalls s) = Err e ->
  cycle env s = Returns tt (marketFailed e s).
Proof.
  intros Hm. unfold cycle, mbind, M_bind. by rewrite getBooks_eq, Hm.
Qed.

Lemma run_market_down e :
  (forall n, marketOrders env n = Err e) ->
  forall evs s,
    run env evs s =
    Returns (statusOf evs) (Nat.iter (ticks evs) (marketFailed e) s).
Proof.
  intros Hdown evs. induction evs as [|[|] rest IH]; intros s; simpl; try done.
  unfold mbind, M_bind. rewrite (cycle_market_failed s e (Hdown _)), IH.
  f_equal. clear. induction (ticks rest) as [|n IHn]; simpl; [done|].
  by rewrite IHn.
Qed.

End PanicCause.

(** ** The scenarios, evaluated *)

Example Max_picks_the_greatest : Max 3 7 5 = 7 /\ Max 9 7 5 = 9 /\ Max 3 7 8 = 8.
Proof. by vm_compute. Qed.

Example bigDiv_is_euclidean :
  bigDiv 7 2 = Some 3 /\ bigDiv (-7) 2 = Some (-4) /\ bigDiv 7 (-2) = Some (-3) /\
  bigDiv (-7) (-2) = Some 4 /\ bigDiv 7 0 = None.
Proof. by vm_compute. Qed.

Example HighestBid_takes_the_best :
  HighestBid bookM = Ok (bid1, mkBook TokenA TokenB [bid3] [ask3; askM]) /\
  LowestAsk bookM = Ok (askM, mkBook TokenA TokenB [bid3; bid1] [ask3]).
Proof. by vm_compute. Qed.

Example getBooks_groups_by_pair :
  booksOf (bookSetOf [bid1; askC; bid3; ask3]) =
  [mkBook TokenA TokenB [bid1; bid3] [askC; ask3]].
Proof. by vm_compute. Qed.

(** Scenario 2: a single bid and no ask; the book is left after the first
    pass with no twin and no balance query. *)
Example single_bid_is_left :
  arbitrage (envOf [] 1000) [mkBook TokenA TokenB [bid1] []] s0 =
  Returns ([], None) s0.
Proof. by vm_compute. Qed.

(** A whole cycle over the orders of scenario 1 and scenario 3. *)
Example cycle_over_the_scenarios :
  cycle (envOf [bid1; askC; bid3; ask3] 1000) s0 =
  Returns tt
    (logged (logged (asked (asked (ordersAsked s0) TokenA) TokenB) executedNone)
       totalCostZero).
Proof. by vm_compute. Qed.

(** * The claims of the design document *)

(** ** Sizing: the maximum of three *)

(** C4. For a crossed pair whose tokens align and whose two balance queries
    answer [bB] and [bQ], the pass goes on with the greatest of
    {[bB], bid.BuyAmount, ask.SellAmount} as the base candidate and the
    greatest of {[bQ], bid.SellAmount, ask.BuyAmount} as the quote
    candidate; and [Max] returns the greatest of its three arguments: it is
    one of them and none of them exceeds it. *)
Theorem candidates_are_greatest env book s bid ask b1 b2 bB bQ :
  HighestBid book = Ok (bid, b1) -> LowestAsk b1 = Ok (ask, b2) ->
  0 < Cmp (Rate bid) (Rate ask) ->
  BuyToken bid = SellToken ask -> SellToken bid = BuyToken ask ->
  atomicBalance env (length (balanceCalls s)) (BuyToken bid) = Ok bB ->
  atomicBalance env (S (length (balanceCalls s))) (SellToken bid) = Ok bQ ->
  iteration env book s =
    settle b2 bid ask
      (Z.max bB (Z.max (BuyAmount bid) (SellAmount ask)))
      (Z.max bQ (Z.max (SellAmount bid) (BuyAmount ask)))
      (asked (asked s (BuyToken bid)) (SellToken bid)) /\
  forall x y z,
    Max x y z = Z.max x (Z.max y z) /\
    x <= Max x y z /\ y <= Max x y z /\ z <= Max x y z /\
    (Max x y z = x \/ Max x y z = y \/ Max x y z = z).
Proof.
  intros Hb Ha Hc H1 H2 HB HQ. split.
  - rewrite <- !Max_is_max. by eapply iteration_sized.
  - intros x y z. rewrite Max_is_max. lia.
Qed.

Lemma candidates_are_greatest_witness :
  iteration (envOf [] 1000) bookC s0 =
    settle (mkBook TokenA TokenB [] []) bid1 askC 1000 1000
      (asked (asked s0 TokenA) TokenB) /\
  forall x y z,
    Max x y z = Z.max x (Z.max y z) /\
    x <= Max x y z /\ y <= Max x y z /\ z <= Max x y z /\
    (Max x y z = x \/ Max x y z = y \/ Max x y z = z).
Proof.
  apply (candidates_are_greatest (envOf [] 1000) bookC s0 bid1 askC
           (mkBook TokenA TokenB [] [askC]) (mkBook TokenA TokenB [] []) 1000 1000);
    reflexivity.
Defined.

(** ** What a crossed pair leads to *)

(** C1, as the code has it. For a crossed pair whose tokens align, whose
    balance queries succeed and for which the base candidate and the quote
    candidate in base terms are not both zero, the pass records no twin (the
    branches that would execute the trade are empty) and the per-book loop
    goes on with the rest of the book; whatever [arbitrage] returns on such
    a book, it is the empty list of twins and no error. *)
Theorem crossed_pair_records_no_twin env book s bid ask b1 b2 bB bQ q :
  HighestBid book = Ok (bid, b1) -> LowestAsk b1 = Ok (ask, b2) ->
  0 < Cmp (Rate bid) (Rate ask) ->
  BuyToken bid = SellToken ask -> SellToken bid = BuyToken ask ->
  atomicBalance env (length (balanceCalls s)) (BuyToken bid) = Ok bB ->
  atomicBalance env (S (length (balanceCalls s))) (SellToken bid) = Ok bQ ->
  bigDiv (Max bQ (SellAmount bid) (BuyAmount ask) * SellAmount ask)
         (BuyAmount ask) = Some q ->
  Max bB (BuyAmount bid) (SellAmount ask) <> 0 \/ q <> 0 ->
  iteration env book s =
    Returns (Again b2) (asked (asked s (BuyToken bid)) (SellToken bid)) /\
  twins (asked (asked s (BuyToken bid)) (SellToken bid)) = twins s /\
  (forall fuel,
     loop env (S fuel) book s =
     loop env fuel b2 (asked (asked s (BuyToken bid)) (SellToken bid))) /\
  (forall rest r s',
     arbitrage env (book :: rest) s = Returns r s' -> r = ([], None)).
Proof.
  intros Hb Ha Hc H1 H2 HB HQ Hq Hnz.
  assert (iteration env book s =
          Returns (Again b2) (asked (asked s (BuyToken bid)) (SellToken bid)))
    as Hi.
  { rewrite (iteration_sized env book s bid ask b1 b2 bB bQ) by done.
    by eapply settle_nonzero. }
  split_and!; try done.
  - intros fuel. simpl. unfold mbind, M_bind. by rewrite Hi.
  - intros rest r s' Hr.
    pose proof (arbitrage_outcome env (book :: rest) s) as Ho.
    rewrite Hr in Ho. tauto.
Qed.

Lemma crossed_pair_records_no_twin_witness :
  iteration (envOf [] 1000) bookC s0 =
    Returns (Again (mkBook TokenA TokenB [] []))
            (asked (asked s0 TokenA) TokenB) /\
  twins (asked (asked s0 TokenA) TokenB) = [] /\
  (forall fuel,
     loop (envOf [] 1000) (S fuel) bookC s0 =
     loop (envOf [] 1000) fuel (mkBook TokenA TokenB [] [])
          (asked (asked s0 TokenA) TokenB)) /\
  (forall rest r s',
     arbitrage (envOf [] 1000) (bookC :: rest) s0 = Returns r s' ->
     r = ([], None)).
Proof.
  apply (crossed_pair_records_no_twin (envOf [] 1000) bookC s0 bid1 askC
           (mkBook TokenA TokenB [] [askC]) (mkBook TokenA TokenB [] [])
           1000 1000 375); try reflexivity.
  right. discriminate.
Defined.

(** C1, as the design document states it, fails: the pair with the rates of
    scenario 1 (bid 1/2, ask 3/8) crosses, its tokens align and both
    candidates are 1000 and 375, yet [arbitrage] returns no twin; nor does
    it on the book of scenario 1 as the document writes its amounts. *)
Lemma scenario1_produces_no_twin :
  HighestBid bookC = Ok (bid1, mkBook TokenA TokenB [] [askC]) /\
  LowestAsk (mkBook TokenA TokenB [] [askC]) =
    Ok (askC, mkBook TokenA TokenB [] []) /\
  0 < Cmp (Rate bid1) (Rate askC) /\
  BuyToken bid1 = SellToken askC /\ SellToken bid1 = BuyToken askC /\
  Max 1000 (BuyAmount bid1) (SellAmount askC) = 1000 /\
  bigDiv (Max 1000 (SellAmount bid1) (BuyAmount askC) * SellAmount askC)
         (BuyAmount askC) = Some 375 /\
  ~ (exists t tw e s',
       arbitrage (envOf [] 1000) [bookC] s0 = Returns (tw, e) s' /\ t ∈ tw) /\
  ~ (exists t tw e s',
       arbitrage (envOf [] 1000) [book1] s0 = Returns (tw, e) s' /\ t ∈ tw).
Proof.
  split_and!; try reflexivity.
  - intros (t & tw & e & s' & H & Hin). vm_compute in H.
    inversion H; subst. by apply elem_of_nil in Hin.
  - intros (t & tw & e & s' & H & Hin). vm_compute in H.
    inversion H; subst. by apply elem_of_nil in Hin.
Qed.



(** ** What stops the work on a book *)

(** C5. When the best bid and the best ask of a book do not cross (the
    rate of the bid is at most the rate of the ask), the pass ends at the
    [break] with the state as it was: no twin, no balance query, no log
    entry; the per-book loop ends there and the next book is taken up. *)
Theorem no_crossing_stops_book env book s bid ask b1 b2 rest :
  HighestBid book = Ok (bid, b1) -> LowestAsk b1 = Ok (ask, b2) ->
  Cmp (Rate bid) (Rate ask) <= 0 ->
  iteration env book s = Returns Break s /\
  bookLoop env book s = Returns tt s /\
  forBooks env (book :: rest) s = forBooks env rest s.
Proof.
  intros Hb Ha Hc.
  pose proof (iteration_no_cross env book s bid ask b1 b2 Hb Ha Hc) as Hi.
  assert (bookLoop env book s = Returns tt s) as Hl.
  { unfold bookLoop. simpl. unfold mbind, M_bind. by rewrite Hi. }
  split_and!; try done.
  simpl. unfold mbind, M_bind. by rewrite Hl.
Qed.

Lemma no_crossing_stops_book_witness :
  iteration (envOf [] 1000) book3 s0 = Returns Break s0 /\
  bookLoop (envOf [] 1000) book3 s0 = Returns tt s0 /\
  forBooks (envOf [] 1000) [book3; bookC] s0 =
  forBooks (envOf [] 1000) [bookC] s0.
Proof.
  apply (no_crossing_stops_book (envOf [] 1000) book3 s0 bid3 ask3
           (mkBook TokenA TokenB [] [ask3]) (mkBook TokenA TokenB [] []) [bookC]);
    [reflexivity | reflexivity | vm_compute; discriminate].
Defined.

(** C7. When the crossed best pair of a book has mismatched tokens (the bid
    buys another token than the ask sells, or sells another token than the
    ask buys), the pass logs an error that shows the book and ends at
    [continue BookLoop]: whatever orders the book still holds, no twin is
    recorded and no balance is asked for it, and the books after it are
    taken up from the state with that one log entry more. *)
Theorem token_mismatch_abandons_book env book s bid ask b1 b2 rest :
  HighestBid book = Ok (bid, b1) -> LowestAsk b1 = Ok (ask, b2) ->
  0 < Cmp (Rate bid) (Rate ask) ->
  BuyToken bid <> SellToken ask \/ SellToken bid <> BuyToken ask ->
  exists fmt,
    (fmt = "base token mismatch in book: %v" \/
     fmt = "quote token mismatch in book: %v") /\
    iteration env book s =
      Returns ContinueBookLoop (logged s (mkEntry LvlError fmt [ABook b2])) /\
    bookLoop env book s =
      Returns tt (logged s (mkEntry LvlError fmt [ABook b2])) /\
    forBooks env (book :: rest) s =
      forBooks env rest (logged s (mkEntry LvlError fmt [ABook b2])) /\
    twins (logged s (mkEntry LvlError fmt [ABook b2])) = twins s /\
    balanceCalls (logged s (mkEntry LvlError fmt [ABook b2])) = balanceCalls s.
Proof.
  intros Hb Ha Hc Hm.
  assert (exists fmt,
    (fmt = "base token mismatch in book: %v" \/
     fmt = "quote token mismatch in book: %v") /\
    iteration env book s =
      Returns ContinueBookLoop (logged s (mkEntry LvlError fmt [ABook b2])))
    as (fmt & Hfmt & Hi).
  { destruct (decide (BuyToken bid = SellToken ask)) as [He|Hne].
    - destruct Hm as [Hm|Hm]; [done|].
      eexists. split; [by right|]. by eapply iteration_quote_mismatch.
    - eexists. split; [by left|]. by eapply iteration_base_mismatch. }
  exists fmt.
  assert (bookLoop env book s =
          Returns tt (logged s (mkEntry LvlError fmt [ABook b2]))) as Hl.
  { unfold bookLoop. simpl. unfold mbind, M_bind. by rewrite Hi. }
  split_and!; try done.
  simpl. unfold mbind, M_bind. by rewrite Hl.
Qed.

Lemma token_mismatch_abandons_book_witness :
  exists fmt,
    (fmt = "base token mismatch in book: %v" \/
     fmt = "quote token mismatch in book: %v") /\
    iteration (envOf [] 1000) bookM s0 =
      Returns ContinueBookLoop
        (logged s0 (mkEntry LvlError fmt [ABook (mkBook TokenA TokenB [bid3] [ask3])])) /\
    bookLoop (envOf [] 1000) bookM s0 =
      Returns tt
        (logged s0 (mkEntry LvlError fmt [ABook (mkBook TokenA TokenB [bid3] [ask3])])) /\
    forBooks (envOf [] 1000) [bookM; bookC] s0 =
      forBooks (envOf [] 1000) [bookC]
        (logged s0 (mkEntry LvlError fmt [ABook (mkBook TokenA TokenB [bid3] [ask3])])) /\
    twins (logged s0 (mkEntry LvlError fmt [ABook (mkBook TokenA TokenB [bid3] [ask3])])) =
      twins s0 /\
    balanceCalls
      (logged s0 (mkEntry LvlError fmt [ABook (mkBook TokenA TokenB [bid3] [ask3])])) =
      balanceCalls s0.
Proof.
  apply (token_mismatch_abandons_book (envOf [] 1000) bookM s0 bid1 askM
           (mkBook TokenA TokenB [bid3] [ask3; askM])
           (mkBook TokenA TokenB [bid3] [ask3]) [bookC]);
    [reflexivity | reflexivity | reflexivity | left; discriminate].
Defined.



(** The code of lines 296 to 305 at work on the ask of scenario 1 with a
    base candidate of zero: a quote candidate of 2 comes to 2 * 30 / 80 = 0
    in base terms, and the book is left with the warning; a quote candidate
    of 3 comes to 1, and the loop goes on. *)
Example settle_at_the_edge :
  settle book3 bid1 askC 0 2 s0 =
    Returns ContinueBookLoop
      (logged s0 (mkEntry LvlWarning "can't trade marginal amounts: %v & %v"
                    [AInt 0; AInt 2])) /\
  settle book3 bid1 askC 0 3 s0 = Returns (Again book3) s0.
Proof. by vm_compute. Qed.

(** ** Termination of the per-book loop *)

(** C10. A pass over a book either ends the work on it ([break] or
    [continue BookLoop], or the panic of a division by zero) or goes on
    with a book that has one bid less and one ask less; so the loop never
    runs out of passes: one pass more than the lesser of the numbers of
    bids and asks is always enough, and any larger bound gives the same
    result. *)
Theorem loop_terminates env book s :
  match iteration env book s with
  | Returns (Again book') _ =>
      length (bids book) = S (length (bids book')) /\
      length (asks book) = S (length (asks book'))
  | Returns _ _ => True
  | Panic _ => True
  | OutOfFuel => False
  end /\
  bookLoop env book s <> OutOfFuel /\
  forall fuel, (passes book < fuel)%nat ->
    loop env fuel book s = bookLoop env book s.
Proof.
  split_and!.
  - pose proof (iteration_frame env book s) as Hf.
    destruct (iteration env book s) as [[book'| |] s'|s'|]; try done.
    tauto.
  - unfold bookLoop.
    destruct (loop_fuel env (S (length (bids book))) (S (length (bids book)))
                book s) as [_ H]; [unfold passes; lia..|].
    exact H.
  - intros fuel Hfuel. unfold bookLoop.
    apply loop_fuel; unfold passes in *; lia.
Qed.

(** ** The book builder *)

(** C3. [getBooks] hands back the books of the map built from the orders
    of the market, or the error of the market. The map is built order by
    order: an order goes as a bid into the book held under
    (buyToken, sellToken) if there is one, else as an ask into the book
    held under (sellToken, buyToken) if there is one, else into a new book
    with base buyToken and quote sellToken, as its first bid, held under
    (buyToken, sellToken). Every order is then in exactly one book: the
    orders of all the books together are the orders given, each as often
    as it was given; and in every book the bids buy the base token for the
    quote token and the asks sell it. *)
Theorem getBooks_places_each_order env s orders order :
  getBooks env s =
    Returns
      match marketOrders env (orderCalls s) with
      | Ok l => Ok (booksOf (bookSetOf l))
      | Err err => Err ("could not retrieve orders from market (" +:+ err +:+ ")")
      end
      (ordersAsked s) /\
  bookSetOf (orders ++ [order]) =
    match bookSetOf orders !! (BuyToken order, SellToken order) with
    | Some bidBook =>
        <[(BuyToken order, SellToken order) := AddBid order bidBook]>
          (bookSetOf orders)
    | None =>
        match bookSetOf orders !! (SellToken order, BuyToken order) with
        | Some askBook =>
            <[(SellToken order, BuyToken order) := AddAsk order askBook]>
              (bookSetOf orders)
        | None =>
            <[(BuyToken order, SellToken order) :=
                mkBook (BuyToken order) (SellToken order) [order] []]>
              (bookSetOf orders)
        end
    end /\
  ordersOf (booksOf (bookSetOf orders)) ≡ₚ orders /\
  map_Forall oriented (bookSetOf orders).
Proof.
  split_and!.
  - apply getBooks_eq.
  - rewrite bookSetOf_snoc. reflexivity.
  - apply bookSetOf_orders.
  - apply bookSetOf_oriented.
Qed.

(** C6, as the design document states it, fails: an order whose buy amount
    is zero is put into a book like any other. *)
Lemma zero_buy_amount_is_booked :
  BuyAmount orderZ = 0 /\
  getBooks (envOf [orderZ] 0) s0 =
    Returns (Ok [mkBook TokenA TokenB [orderZ] []]) (ordersAsked s0) /\
  ~ (forall books s', getBooks (envOf [orderZ] 0) s0 = Returns (Ok books) s' ->
       forall b, b ∈ books -> (orderZ ∉ bids b) /\ (orderZ ∉ asks b)).
Proof.
  assert (getBooks (envOf [orderZ] 0) s0 =
          Returns (Ok [mkBook TokenA TokenB [orderZ] []]) (ordersAsked s0)) as H.
  { by vm_compute. }
  split_and!; try done.
  intros Hno. destruct (Hno _ _ H (mkBook TokenA TokenB [orderZ] [])) as [Hb _].
  - apply list_elem_of_here.
  - apply Hb. apply list_elem_of_here.
Qed.

(** C6, as the code has it. [getBooks] turns no order away: every order
    the market returns, whatever its buy amount, is in one of the books
    produced; so the books hold only orders with a positive buy amount
    exactly when the market returned only such orders. *)
Theorem getBooks_rejects_no_order env s orders o :
  marketOrders env (orderCalls s) = Ok orders ->
  o ∈ orders ->
  getBooks env s = Returns (Ok (booksOf (bookSetOf orders))) (ordersAsked s) /\
  (exists b, b ∈ booksOf (bookSetOf orders) /\ (o ∈ bids b \/ o ∈ asks b)) /\
  (Forall validBook (booksOf (bookSetOf orders)) <-> Forall validOrder orders).
Proof.
  intros Hm Ho. split_and!.
  - by rewrite getBooks_eq, Hm.
  - apply elem_of_ordersOf. by rewrite bookSetOf_orders.
  - split; [|apply bookSetOf_valid].
    intros Hv. rewrite Forall_forall in Hv. apply Forall_forall.
    intros x Hx. rewrite <- (bookSetOf_orders orders) in Hx.
    apply elem_of_ordersOf in Hx as (b & Hb & Hx).
    destruct (Hv b Hb) as [H1 H2]. rewrite Forall_forall in H1, H2.
    destruct Hx; auto.
Qed.

Lemma getBooks_rejects_no_order_witness :
  getBooks (envOf [bid1; orderZ] 0) s0 =
    Returns (Ok (booksOf (bookSetOf [bid1; orderZ]))) (ordersAsked s0) /\
  (exists b, b ∈ booksOf (bookSetOf [bid1; orderZ]) /\
             (orderZ ∈ bids b \/ orderZ ∈ asks b)) /\
  (Forall validBook (booksOf (bookSetOf [bid1; orderZ])) <->
   Forall validOrder [bid1; orderZ]).
Proof.
  apply (getBooks_rejects_no_order (envOf [bid1; orderZ] 0) s0 [bid1; orderZ] orderZ).
  - reflexivity.
  - apply list_elem_of_further, list_elem_of_here.
Defined.

(** ** Errors and the scheduling loop *)

(** C9. When [Market.Orders] fails, [getBooks] returns an error that
    carries the one of the market, and no books; the cycle logs that error
    and does nothing else: it leaves the state with one call to the market
    and one entry in the log more. The loop then waits for the next event:
    over the tick alone it ends waiting in that state, over the tick and a
    value on [done] it ends past the loop in that state, and over the tick
    and further events it goes on from that state. The loop does what its
    cycles do, one tick after the other, and is past its [for] exactly when
    a value arrived on [done]: errors of the market, of the balance queries
    or of the wallet never end it (only the panic of a division by an
    order's zero buy amount stops it otherwise). With a market that fails
    at every call it logs one error per tick and ends as the events
    say. *)
Theorem market_failure_abandons_cycle env s e events :
  marketOrders env (orderCalls s) = Err e ->
  exists err s1,
    err = "could not retrieve orders from market (" +:+ e +:+ ")" /\
    s1 = logged (ordersAsked s)
           (mkEntry LvlError "could not get orders (%v)" [AErr err]) /\
    getBooks env s = Returns (Err err) (ordersAsked s) /\
    cycle env s = Returns tt s1 /\
    run env [EvRefresh] s = Returns Waiting s1 /\
    run env (EvRefresh :: EvDone :: events) s = Returns Exited s1 /\
    run env (EvRefresh :: events) s = run env events s1 /\
    (forall evs s',
      run env [] s' = Returns Waiting s' /\
      run env (EvDone :: evs) s' = Returns Exited s' /\
      run env (EvRefresh :: evs) s' =
        match cycle env s' with
        | Returns _ s'' => run env evs s''
        | Panic s'' => Panic s''
        | OutOfFuel => OutOfFuel
        end /\
      match run env evs s' with
      | Returns st _ => st = Exited <-> EvDone ∈ evs
      | Panic _ =>
          exists n l o, marketOrders env n = Ok l /\ o ∈ l /\ BuyAmount o = 0
      | OutOfFuel => False
      end) /\
    ((forall n, marketOrders env n = Err e) ->
     forall evs s',
       run env evs s' =
       Returns (statusOf evs) (Nat.iter (ticks evs) (marketFailed e) s')).
Proof.
  intros Hm. eexists. eexists. split; [reflexivity|]. split; [reflexivity|].
  assert (getBooks env s =
          Returns (Err ("could not retrieve orders from market (" +:+ e +:+ ")"))
                  (ordersAsked s)) as Hg.
  { by rewrite getBooks_eq, Hm. }
  match goal with |- _ /\ cycle env s = Returns tt ?st /\ _ =>
    assert (cycle env s = Returns tt st) as Hc end.
  { unfold cycle, mbind, M_bind. by rewrite Hg. }
  split_and!; try done.
  - simpl. unfold mbind, M_bind. by rewrite Hc.
  - simpl. unfold mbind, M_bind. by rewrite Hc.
  - simpl. unfold mbind, M_bind. by rewrite Hc.
  - intros evs s'. split_and!; try done. apply run_outcome.
  - intros Hdown. by apply run_market_down.
Qed.

Lemma market_failure_abandons_cycle_witness :
  exists err s1,
    err = "could not retrieve orders from market (" +:+ "no route to host" +:+ ")" /\
    s1 = logged (ordersAsked s0)
           (mkEntry LvlError "could not get orders (%v)" [AErr err]) /\
    getBooks envDown s0 = Returns (Err err) (ordersAsked s0) /\
    cycle envDown s0 = Returns tt s1 /\
    run envDown [EvRefresh] s0 = Returns Waiting s1 /\
    run envDown (EvRefresh :: EvDone :: [EvRefresh; EvDone]) s0 =
      Returns Exited s1 /\
    run envDown [EvRefresh; EvRefresh; EvDone] s0 =
      run envDown [EvRefresh; EvDone] s1 /\
    (forall evs s',
      run envDown [] s' = Returns Waiting s' /\
      run envDown (EvDone :: evs) s' = Returns Exited s' /\
      run envDown (EvRefresh :: evs) s' =
        match cycle envDown s' with
        | Returns _ s'' => run envDown evs s''
        | Panic s'' => Panic s''
        | OutOfFuel => OutOfFuel
        end /\
      match run envDown evs s' with
      | Returns st _ => st = Exited <-> EvDone ∈ evs
      | Panic _ =>
          exists n l o, marketOrders envDown n = Ok l /\ o ∈ l /\ BuyAmount o = 0
      | OutOfFuel => False
      end) /\
    ((forall n, marketOrders envDown n = Err "no route to host") ->
     forall evs s',
       run envDown evs s' =
       Returns (statusOf evs)
               (Nat.iter (ticks evs) (marketFailed "no route to host") s')).
Proof.
  apply (market_failure_abandons_cycle envDown s0 "no route to host"
           [EvRefresh; EvDone]).
  reflexivity.
Defined.

(** Three ticks and a value on [done] with the market down: three calls to
    the market, three entries in the log, and the loop is left. *)
Example run_with_the_market_down :
  run envDown [EvRefresh; EvRefresh; EvRefresh; EvDone; EvRefresh] s0 =
  Returns Exited
    (marketFailed "no route to host"
       (marketFailed "no route to host"
          (marketFailed "no route to host" s0))).
Proof. by vm_compute. Qed.

(** * Further properties of [matcher.go] *)

(** ** The options of the matcher *)

Lemma NewMatcher_snoc options o :
  NewMatcher (options ++ [o]) = o (NewMatcher options).
Proof. unfold NewMatcher. by rewrite foldl_app. Qed.

(** X1. [NewMatcher] starts from a threshold of 30000 and a refresh
    interval of one minute and applies the options in the order given: the
    threshold is the one of the last [SetThreshold] among them, the
    refresh interval the one of the last [SetRefresh]; an option for one
    of the two leaves the other as it was. *)
Theorem NewMatcher_last_option_wins (l : list Setting) :
  threshold (NewMatcher (optionOf <$> l)) =
    default 30000 (Z.of_N <$> lastThreshold l) /\
  refresh (NewMatcher (optionOf <$> l)) =
    default Minute (lastRefresh l).
Proof.
  unfold lastThreshold, lastRefresh.
  induction l as [|x l IH] using rev_ind; [done|].
  rewrite fmap_app, !omap_app. simpl. rewrite NewMatcher_snoc.
  destruct IH as [IHt IHr]. destruct x as [r|t]; simpl.
  - rewrite !app_nil_r, last_snoc. simpl. done.
  - rewrite !app_nil_r, last_snoc. simpl. done.
Qed.

(** ** The aggregation of [run] *)

#[local] Instance zsum_perm : Proper ((≡ₚ) ==> (=)) zsum.
Proof.
  intros l1 l2 H. unfold zsum.
  induction H; simpl; lia.
Qed.

Lemma foldl_aggregate tw c (m : gmap Address Z) :
  foldl (fun acc twin =>
           (acc.1 + Cost twin,
            addChange (addChange acc.2 (First twin)) (Second twin)))
        (c, m) tw =
  (c + totalCost tw, foldl addChange m (fillsOf tw)).
Proof.
  revert c m. induction tw as [|t tw IH]; intros c m; simpl.
  - unfold totalCost. simpl. f_equal. lia.
  - rewrite IH. unfold totalCost, fillsOf. simpl. f_equal.
    by rewrite <- Z.add_assoc.
Qed.

Lemma netChange_cons token f fills :
  netChange token (f :: fills) =
  if decide (Token f = token) then Amount f + netChange token fills
  else netChange token fills.
Proof.
  unfold netChange. rewrite filter_cons. by destruct (decide (Token f = token)).
Qed.

Lemma netChange_absent token fills :
  token ∉ Token <$> fills -> netChange token fills = 0.
Proof.
  induction fills as [|f fills IH]; [done|].
  rewrite fmap_cons, not_elem_of_cons, netChange_cons. intros [Hne Hn].
  destruct (decide (Token f = token)); [congruence|auto].
Qed.

Lemma foldl_addChange_lookup fills (m : gmap Address Z) token :
  foldl addChange m fills !! token =
  if decide (token ∈ Token <$> fills)
  then Some (default 0 (m !! token) + netChange token fills)
  else m !! token.
Proof.
  revert m. induction fills as [|f fills IH]; intros m; [done|].
  rewrite fmap_cons, netChange_cons. simpl foldl. rewrite IH. unfold addChange.
  destruct (decide (token ∈ Token <$> fills)) as [Hin|Hout].
  - rewrite decide_True by (by apply list_elem_of_further).
    destruct (decide (Token f = token)) as [->|Hne].
    + rewrite lookup_insert_eq. simpl. f_equal. lia.
    + by rewrite lookup_insert_ne.
  - destruct (decide (Token f = token)) as [<-|Hne].
    + rewrite decide_True by apply list_elem_of_here.
      rewrite lookup_insert_eq, (netChange_absent _ _ Hout). simpl. f_equal. lia.
    + rewrite decide_False by (apply not_elem_of_cons; auto).
      by rewrite lookup_insert_ne.
Qed.

Lemma aggregate_cost (tw : list Twin) :
  (aggregate tw).1 = totalCost tw.
Proof. unfold aggregate. rewrite foldl_aggregate. simpl. lia. Qed.

(** X2. The total cost [run] adds up over the twins is the sum of their
    costs; the mapping of changes it builds holds exactly the tokens that
    occur in a fill of some twin, and for each of them the sum of the
    amounts of all the fills in that token, first and second alike. *)
Theorem aggregate_sums (tw : list Twin) (token : Address) :
  (aggregate tw).1 = totalCost tw /\
  (aggregate tw).2 !! token =
    if decide (token ∈ Token <$> fillsOf tw)
    then Some (netChange token (fillsOf tw))
    else None.
Proof.
  split; [apply aggregate_cost|].
  unfold aggregate. rewrite foldl_aggregate. simpl.
  rewrite foldl_addChange_lookup, lookup_empty. simpl.
  by destruct (decide _).
Qed.

Lemma aggregate_changes (tw : list Twin) (token : Address) :
  (aggregate tw).2 !! token =
  if decide (token ∈ Token <$> fillsOf tw)
  then Some (netChange token (fillsOf tw))
  else None.
Proof.
  unfold aggregate. rewrite foldl_aggregate. simpl.
  rewrite foldl_addChange_lookup, lookup_empty. simpl.
  by destruct (decide _).
Qed.

(** X3. The order of the twins does not matter to the aggregation: two
    lists with the same twins give the same total cost and the same
    mapping of changes. *)
Theorem aggregate_any_order (tw1 tw2 : list Twin) :
  tw1 ≡ₚ tw2 -> aggregate tw1 = aggregate tw2.
Proof.
  intros Hp.
  assert (fillsOf tw1 ≡ₚ fillsOf tw2) as Hf by (unfold fillsOf; by rewrite Hp).
  rewrite (surjective_pairing (aggregate tw1)), (surjective_pairing (aggregate tw2)).
  f_equal.
  - rewrite !aggregate_cost. unfold totalCost. by rewrite Hp.
  - apply map_eq. intros token. rewrite !aggregate_changes.
    assert (netChange token (fillsOf tw1) = netChange token (fillsOf tw2)) as ->.
    { unfold netChange. by rewrite Hf. }
    assert (token ∈ Token <$> fillsOf tw1 <-> token ∈ Token <$> fillsOf tw2) as Hiff.
    { by rewrite Hf. }
    destruct (decide (token ∈ Token <$> fillsOf tw1)),
      (decide (token ∈ Token <$> fillsOf tw2)); tauto.
Qed.

Lemma aggregate_any_order_witness :
  aggregate [twin1; twin2] = aggregate [twin2; twin1].
Proof.
  apply (aggregate_any_order [twin1; twin2] [twin2; twin1]).
  apply Permutation_swap.
Defined.

Example aggregate_of_two_twins :
  (aggregate [twin1; twin2]).1 = 63000 /\
  (aggregate [twin1; twin2]).2 !! TokenA = Some 70 /\
  (aggregate [twin1; twin2]).2 !! TokenB = Some (-50) /\
  (aggregate [twin1; twin2]).2 !! TokenC = Some 7 /\
  (aggregate [twin1; twin2]).2 !! 13%N = None.
Proof. by vm_compute. Qed.

(** ** The report of the changes *)

(** X4. [report] asks the wallet once for every change, in the order of
    the changes, and logs one entry for each: a warning when the wallet
    fails for that token, the balance and the change otherwise. A failure
    for one token does not keep the others from being reported, and
    nothing else of the state is touched. *)
Theorem report_covers_every_change env (changes : list (Address * Z)) s :
  report env changes s =
  Returns tt
    {| twins := twins s; orderCalls := orderCalls s;
       balanceCalls := balanceCalls s;
       walletCalls := walletCalls s ++ changes.*1;
       logs := logs s ++
               imap (fun i ac =>
                       reportEntry
                         (walletBalance env (length (walletCalls s) + i) ac.1)
                         ac.1 ac.2)
                    changes |}.
Proof.
  revert s. induction changes as [|[a c] rest IH]; intros s.
  - simpl. rewrite !app_nil_r. by destruct s.
  - simpl. unfold_M. rewrite Nat.add_0_r.
    assert (forall e,
      report env rest (logged (walletAsked s a) e) =
      Returns tt
        {| twins := twins s; orderCalls := orderCalls s;
           balanceCalls := balanceCalls s;
           walletCalls := walletCalls s ++ a :: rest.*1;
           logs := logs s ++ e ::
                   imap ((fun i ac =>
                            reportEntry
                              (walletBalance env (length (walletCalls s) + i) ac.1)
                              ac.1 ac.2) ∘ S) rest |}) as Hrest.
    { intros e. rewrite IH. simpl. rewrite length_app. simpl.
      rewrite <- !app_assoc. simpl. do 4 f_equal.
      apply imap_ext. intros i [a' c'] _. simpl.
      do 2 f_equal. lia. }
    destruct (walletBalance env (length (walletCalls s)) a); simpl; apply Hrest.
Qed.

(** ** Failing balance queries and the division *)

(** X5. When the query for the balance of the base token fails for a
    crossed pair whose tokens align, the pass logs the error with the token
    and does not ask for the balance of the quote token; the book is left
    and the books after it are taken up. *)
Theorem base_balance_failure_leaves_book env book s bid ask b1 b2 err rest :
  HighestBid book = Ok (bid, b1) -> LowestAsk b1 = Ok (ask, b2) ->
  0 < Cmp (Rate bid) (Rate ask) ->
  BuyToken bid = SellToken ask -> SellToken bid = BuyToken ask ->
  atomicBalance env (length (balanceCalls s)) (BuyToken bid) = Err err ->
  exists s',
    s' = logged (asked s (BuyToken bid))
           (mkEntry LvlError "could not get balance for base token: %v (%v)"
              [AAddr (BuyToken bid); AErr err]) /\
    iteration env book s = Returns ContinueBookLoop s' /\
    bookLoop env book s = Returns tt s' /\
    forBooks env (book :: rest) s = forBooks env rest s' /\
    balanceCalls s' = balanceCalls s ++ [BuyToken bid] /\
    twins s' = twins s.
Proof.
  intros Hb Ha Hc H1 H2 HB. eexists. split; [reflexivity|].
  match goal with |- iteration _ _ _ = Returns _ ?st /\ _ =>
    assert (iteration env book s = Returns ContinueBookLoop st) as Hi end.
  { unfold iteration. rewrite Hb, Ha.
    apply Z.leb_gt in Hc. rewrite Hc.
    apply N.eqb_eq in H1, H2. rewrite H1, H2. simpl.
    unfold Balance, mbind, M_bind. by rewrite HB. }
  match goal with |- _ /\ bookLoop _ _ _ = Returns _ ?st /\ _ =>
    assert (bookLoop env book s = Returns tt st) as Hl end.
  { unfold bookLoop. simpl. unfold mbind, M_bind. by rewrite Hi. }
  split_and!; try done.
  simpl. unfold mbind, M_bind. by rewrite Hl.
Qed.

Lemma base_balance_failure_leaves_book_witness :
  exists s',
    s' = logged (asked s0 TokenA)
           (mkEntry LvlError "could not get balance for base token: %v (%v)"
              [AAddr TokenA; AErr "timeout"]) /\
    iteration envBaseDown bookC s0 = Returns ContinueBookLoop s' /\
    bookLoop envBaseDown bookC s0 = Returns tt s' /\
    forBooks envBaseDown [bookC; book3] s0 = forBooks envBaseDown [book3] s' /\
    balanceCalls s' = balanceCalls s0 ++ [TokenA] /\
    twins s' = twins s0.
Proof.
  apply (base_balance_failure_leaves_book envBaseDown bookC s0 bid1 askC
           (mkBook TokenA TokenB [] [askC]) (mkBook TokenA TokenB [] [])
           "timeout" [book3]); reflexivity.
Defined.

(** X6. When the balance of the base token is there and the query for the
    quote token fails, the pass logs the error with the quote token after
    both queries; the book is left and the books after it are taken up. *)
Theorem quote_balance_failure_leaves_book env book s bid ask b1 b2 bB err rest :
  HighestBid book = Ok (bid, b1) -> LowestAsk b1 = Ok (ask, b2) ->
  0 < Cmp (Rate bid) (Rate ask) ->
  BuyToken bid = SellToken ask -> SellToken bid = BuyToken ask ->
  atomicBalance env (length (balanceCalls s)) (BuyToken bid) = Ok bB ->
  atomicBalance env (S (length (balanceCalls s))) (SellToken bid) = Err err ->
  exists s',
    s' = logged (asked (asked s (BuyToken bid)) (SellToken bid))
           (mkEntry LvlError "could not get balance for quote token: %v (%v)"
              [AAddr (SellToken bid); AErr err]) /\
    iteration env book s = Returns ContinueBookLoop s' /\
    bookLoop env book s = Returns tt s' /\
    forBooks env (book :: rest) s = forBooks env rest s' /\
    twins s' = twins s.
Proof.
  intros Hb Ha Hc H1 H2 HB HQ. eexists. split; [reflexivity|].
  match goal with |- iteration _ _ _ = Returns _ ?st /\ _ =>
    assert (iteration env book s = Returns ContinueBookLoop st) as Hi end.
  { unfold iteration. rewrite Hb, Ha.
    apply Z.leb_gt in Hc. rewrite Hc.
    apply N.eqb_eq in H1, H2. rewrite H1, H2. simpl.
    unfold Balance, mbind, M_bind. rewrite HB. simpl.
    rewrite length_app, Nat.add_comm. simpl. by rewrite HQ. }
  match goal with |- _ /\ bookLoop _ _ _ = Returns _ ?st /\ _ =>
    assert (bookLoop env book s = Returns tt st) as Hl end.
  { unfold bookLoop. simpl. unfold mbind, M_bind. by rewrite Hi. }
  split_and!; try done.
  simpl. unfold mbind, M_bind. by rewrite Hl.
Qed.

Lemma quote_balance_failure_leaves_book_witness :
  exists s',
    s' = logged (asked (asked s0 TokenA) TokenB)
           (mkEntry LvlError "could not get balance for quote token: %v (%v)"
              [AAddr TokenB; AErr "timeout"]) /\
    iteration envQuoteDown bookC s0 = Returns ContinueBookLoop s' /\
    bookLoop envQuoteDown bookC s0 = Returns tt s' /\
    forBooks envQuoteDown [bookC; book3] s0 = forBooks envQuoteDown [book3] s' /\
    twins s' = twins s0.
Proof.
  apply (quote_balance_failure_leaves_book envQuoteDown bookC s0 bid1 askC
           (mkBook TokenA TokenB [] [askC]) (mkBook TokenA TokenB [] [])
           1000 "timeout" [book3]); reflexivity.
Defined.

(** ** What the matcher adds to the state *)

Lemma extended_refl s : extended s s [] [].
Proof. unfold extended. by rewrite !app_nil_r. Qed.

Lemma extended_trans s s1 s2 q1 l1 q2 l2 :
  extended s s1 q1 l1 -> extended s1 s2 q2 l2 ->
  extended s s2 (q1 ++ q2) (l1 ++ l2).
Proof.
  unfold extended. intros (Hq1 & Hl1 & Ho1 & Hw1) (Hq2 & Hl2 & Ho2 & Hw2).
  rewrite Hq2, Hl2, Ho2, Hw2, Hq1, Hl1, Ho1, Hw1, !app_assoc. done.
Qed.

Lemma extended_logged s e : extended s (logged s e) [] [e].
Proof. unfold extended. simpl. by rewrite app_nil_r. Qed.

Lemma extended_asked s token : extended s (asked s token) [token] [].
Proof. unfold extended. simpl. by rewrite app_nil_r. Qed.

Lemma settle_effects book bid ask bA qA s :
  match settle book bid ask bA qA s with
  | Returns f s' =>
      (f = Again book /\ s' = s) \/
      (f = ContinueBookLoop /\ exists e, s' = logged s e)
  | Panic s' => s' = s
  | OutOfFuel => False
  end.
Proof.
  unfold_M. unfold bigDiv.
  repeat (case_match; simpl in *; simplify_eq; try done); eauto.
Qed.

Section Effects.

Variable env : Env.

Lemma iteration_effects book s :
  match iteration env book s with
  | Returns f s' =>
      exists q l, extended s s' q l /\ twins s' = twins s /\
        match f with
        | Again book' =>
            (length q <= 2)%nat /\ l = [] /\ passes book = S (passes book')
        | Break => q = [] /\ l = []
        | ContinueBookLoop =>
            (length q <= 2 * passes book)%nat /\ length l = 1%nat
        end
  | Panic s' =>
      exists q, extended s s' q [] /\ (length q <= 2 * passes book)%nat
  | OutOfFuel => False
  end.
Proof.
  unfold iteration.
  destruct (HighestBid book) as [[bid b1]|] eqn:Hb;
    [|exists [], []; auto using extended_refl].
  destruct (LowestAsk b1) as [[ask b2]|] eqn:Ha;
    [|exists [], []; auto using extended_refl].
  apply HighestBid_Ok in Hb as (Hb & Hb' & _).
  apply LowestAsk_Ok in Ha as (Ha & Ha' & _).
  assert (passes book = S (passes b2)) as Hp.
  { unfold passes. rewrite Hb, <- Ha', <- Hb', Ha. simpl. lia. }
  destruct (_ <=? 0); [exists [], []; auto using extended_refl|].
  destruct (negb _).
  { exists [], [mkEntry LvlError "base token mismatch in book: %v" [ABook b2]].
    split_and!; simpl; auto using extended_logged; lia. }
  destruct (negb _).
  { exists [], [mkEntry LvlError "quote token mismatch in book: %v" [ABook b2]].
    split_and!; simpl; auto using extended_logged; lia. }
  simpl. unfold Balance, mbind, M_bind.
  destruct (atomicBalance env _ _) as [bB|e1].
  2:{ eexists [BuyToken bid], [_]. unfold Errorf, logf. simpl.
      split_and!; simpl; try done; lia. }
  destruct (atomicBalance env _ _) as [bQ|e2].
  2:{ eexists [BuyToken bid; SellToken bid], [_]. unfold Errorf, logf. simpl.
      split_and!; simpl; try done; try lia.
      unfold extended. simpl. by rewrite <- app_assoc. }
  assert (extended s (asked (asked s (BuyToken bid)) (SellToken bid))
            [BuyToken bid; SellToken bid] []) as He.
  { unfold extended. simpl. by rewrite <- app_assoc, app_nil_r. }
  match goal with |- context [settle ?b ?x ?y ?p ?q ?st] =>
    pose proof (settle_effects b x y p q st) as Hs;
    destruct (settle b x y p q st) as [f s'| s'|] end; [| |done].
  - destruct Hs as [[-> ->]|[-> [e ->]]].
    + exists [BuyToken bid; SellToken bid], []. split_and!; simpl; auto.
    + exists [BuyToken bid; SellToken bid], [e]. split_and!; simpl; try done; try lia.
      unfold extended. simpl. by rewrite <- app_assoc.
  - subst s'. exists [BuyToken bid; SellToken bid]. split; [done|]. simpl. lia.
Qed.

Lemma loop_effects fuel book s :
  match loop env fuel book s with
  | Returns _ s' =>
      exists q l, extended s s' q l /\ twins s' = twins s /\
                  (length q <= 2 * passes book)%nat /\ (length l <= 1)%nat
  | Panic s' =>
      exists q l, extended s s' q l /\
                  (length q <= 2 * passes book)%nat /\ (length l <= 1)%nat
  | OutOfFuel => True
  end.
Proof.
  revert book s. induction fuel as [|n IH]; intros book s; [done|].
  simpl. unfold mbind, M_bind.
  pose proof (iteration_effects book s) as Hi.
  destruct (iteration env book s) as [f s1|s1|]; [| |done].
  - destruct Hi as (q & l & He & Ht & Hf).
    destruct f as [book'| |].
    + destruct Hf as (Hq & -> & Hp). specialize (IH book' s1).
      destruct (loop env n book' s1) as [u s2|s2|]; [| |done].
      * destruct IH as (q2 & l2 & He2 & Ht2 & Hq2 & Hl2).
        exists (q ++ q2), ([] ++ l2). split; [by eapply extended_trans|].
        rewrite length_app. simpl. split_and!; [congruence|lia|lia].
      * destruct IH as (q2 & l2 & He2 & Hq2 & Hl2).
        exists (q ++ q2), ([] ++ l2). split; [by eapply extended_trans|].
        rewrite length_app. simpl. lia.
    + destruct Hf as [-> ->]. exists [], []. simpl. split_and!; auto; lia.
    + destruct Hf as [Hq Hl]. exists q, l. split_and!; auto; lia.
  - destruct Hi as (q & He & Hq). exists q, []. simpl. split_and!; auto; lia.
Qed.

Lemma forBooks_effects books s :
  match forBooks env books s with
  | Returns _ s' =>
      exists q l, extended s s' q l /\ twins s' = twins s /\
                  (length q <= 2 * allPasses books)%nat /\
                  (length l <= length books)%nat
  | Panic s' =>
      exists q l, extended s s' q l /\
                  (length q <= 2 * allPasses books)%nat /\
                  (length l <= length books)%nat
  | OutOfFuel => False
  end.
Proof.
  revert s. induction books as [|book rest IH]; intros s.
  - simpl. exists [], []. auto using extended_refl.
  - simpl. unfold mbind, M_bind.
    pose proof (loop_effects (S (length (bids book))) book s) as Hl.
    pose proof (bookLoop_frame env book s) as Hf.
    unfold bookLoop in *.
    destruct (loop env (S (length (bids book))) book s) as [u s1|s1|]; [| |done].
    + destruct Hl as (q & l & He & Ht & Hq & Hl). specialize (IH s1).
      destruct (forBooks env rest s1) as [u2 s2|s2|]; [| |done].
      * destruct IH as (q2 & l2 & He2 & Ht2 & Hq2 & Hl2).
        exists (q ++ q2), (l ++ l2). split; [by eapply extended_trans|].
        rewrite !length_app. split_and!; [congruence|lia|lia].
      * destruct IH as (q2 & l2 & He2 & Hq2 & Hl2).
        exists (q ++ q2), (l ++ l2). split; [by eapply extended_trans|].
        rewrite !length_app. lia.
    + destruct Hl as (q & l & He & Hq & Hl). exists q, l. split; [done|]. lia.
Qed.

End Effects.

Lemma arbitrage_effects env books s :
  match arbitrage env books s with
  | Returns r s' =>
      r = ([], None) /\
      exists q l, extended s s' q l /\
                  (length q <= 2 * allPasses books)%nat /\
                  (length l <= length books)%nat
  | Panic s' =>
      exists q l, extended s s' q l /\
                  (length q <= 2 * allPasses books)%nat /\
                  (length l <= length books)%nat
  | OutOfFuel => False
  end.
Proof.
  unfold arbitrage, setTwins, getTwins, mbind, M_bind, mret, M_ret.
  match goal with |- context [forBooks env books ?st] =>
    pose proof (forBooks_effects env books st) as Hf;
    destruct (forBooks env books st) as [u s'|s'|] end; [| |done].
  - destruct Hf as (q & l & He & Ht & Hq & Hl). simpl in Ht. rewrite Ht.
    split; [done|].
    exists q, l. split; [|done]. unfold extended in *. simpl in He. done.
  - destruct Hf as (q & l & He & Hq & Hl).
    exists q, l. split; [|done]. unfold extended in *. simpl in He. done.
Qed.

(** X8. Whatever the books and whatever the balance queries answer,
    [arbitrage] asks for at most two balances per pair of a bid and an ask
    the books hold and logs at most one entry per book; it calls neither
    the market nor the wallet and keeps what was asked and logged before.
    It ends either by returning no twin and no error or in the panic of a
    division by zero. *)
Theorem arbitrage_effects_bounded env books s :
  match arbitrage env books s with
  | Returns r s' =>
      r = ([], None) /\
      exists q l, extended s s' q l /\
                  (length q <= 2 * allPasses books)%nat /\
                  (length l <= length books)%nat
  | Panic s' =>
      exists q l, extended s s' q l /\
                  (length q <= 2 * allPasses books)%nat /\
                  (length l <= length books)%nat
  | OutOfFuel => False
  end.
Proof. apply arbitrage_effects. Qed.

(** ** The scheduling loop over its events *)

Lemma cycle_effects env s :
  match cycle env s with
  | Returns _ s' =>
      walletCalls s' = walletCalls s /\ orderCalls s' = S (orderCalls s)
  | Panic s' =>
      walletCalls s' = walletCalls s /\ orderCalls s' = S (orderCalls s)
  | OutOfFuel => False
  end.
Proof.
  unfold cycle, mbind, M_bind. rewrite getBooks_eq.
  destruct (marketOrders env (orderCalls s)) as [orders|e]; [|done].
  unfold matchBooks, mbind, M_bind.
  pose proof (arbitrage_effects env (booksOf (bookSetOf orders))
                (ordersAsked s)) as Ha.
  destruct (arbitrage env _ _) as [r s'|s'|]; [| |done].
  - destruct Ha as (-> & q & l & (_ & _ & Ho & Hw) & _). simpl.
    unfold aggregate. simpl. rewrite map_to_list_empty. simpl. done.
  - destruct Ha as (q & l & (_ & _ & Ho & Hw) & _). done.
Qed.

(** X9. Every tick handled makes exactly one call to the market and none
    to the wallet: when the loop has handled its events, the market was
    asked once per tick that came before the first value on [done], and
    the wallet never; the loop is past its [for] exactly when such a value
    came. The same count holds up to a panic. *)
Theorem run_asks_market_once_per_tick env events s :
  match run env events s with
  | Returns st s' =>
      walletCalls s' = walletCalls s /\
      orderCalls s' = (orderCalls s + ticks events)%nat /\
      (st = Exited <-> EvDone ∈ events)
  | Panic s' =>
      walletCalls s' = walletCalls s /\
      (orderCalls s < orderCalls s' <= orderCalls s + ticks events)%nat
  | OutOfFuel => False
  end.
Proof.
  revert s. induction events as [|[|] rest IH]; intros s; simpl.
  - split_and!; [done|lia|]. split; [done|]. by intros ?%elem_of_nil.
  - split_and!; [done|lia|]. split; [|done]. intros _. apply list_elem_of_here.
  - unfold mbind, M_bind. pose proof (cycle_effects env s) as Hc.
    destruct (cycle env s) as [u s1|s1|]; [| |done].
    + destruct Hc as [Hw Ho]. specialize (IH s1).
      destruct (run env rest s1) as [st s2|s2|]; [| |done].
      * destruct IH as (-> & -> & Hst). split_and!; [done|lia|].
        rewrite Hst, elem_of_cons. split; [auto|]. by intros [?|?].
      * destruct IH as (-> & Hle). split; [done|]. lia.
    + destruct Hc as [Hw Ho]. split; [done|]. lia.
Qed.

(** X10. The loop handles its events strictly one after the other: over
    two runs of events it does what it does over the first and, when it is
    still waiting then, goes on from that state with the second; once a
    value came on [done] (or a panic stopped it) the events that follow
    are not looked at. *)
Theorem run_handles_events_in_sequence env evs1 evs2 s :
  run env (evs1 ++ evs2) s =
    match run env evs1 s with
    | Returns Waiting s1 => run env evs2 s1
    | other => other
    end /\
  run env (evs1 ++ EvDone :: evs2) s = run env (evs1 ++ [EvDone]) s.
Proof.
  assert (forall evs s,
    run env (evs1 ++ evs) s =
    match run env evs1 s with
    | Returns Waiting s1 => run env evs s1
    | other => other
    end) as H.
  { intros evs. induction evs1 as [|[|] rest IH]; intros s'; simpl; try done.
    unfold mbind, M_bind. destruct (cycle env s'); auto. }
  split; [apply H|].
  rewrite !H. destruct (run env evs1 s) as [[|] s1|s1|]; done.
Qed.

(** ** The books, told from the orders *)

Lemma prod_swap_swap (k : Address * Address) : prod_swap (prod_swap k) = k.
Proof. by destruct k. Qed.

Lemma touches_swap k o : touches (prod_swap k) o <-> touches k o.
Proof. unfold touches. rewrite prod_swap_swap. tauto. Qed.

Lemma filter_snoc_order (P : Order -> Prop) `{!forall x, Decision (P x)} l o :
  filter P (l ++ [o]) = filter P l ++ (if decide (P o) then [o] else []).
Proof. rewrite filter_app, filter_cons, filter_nil. by destruct (decide (P o)). Qed.

Lemma bookAt_Some orders k b :
  bookAt orders k = Some b ->
  exists o, head (filter (touches k) orders) = Some o /\ isBid k o /\
            b = mkBook k.1 k.2 (filter (isBid k) orders) (filter (isAsk k) orders).
Proof.
  unfold bookAt. destruct (head _) as [o|]; [|done].
  destruct (decide (isBid k o)); [|done]. intros [= <-]. eauto.
Qed.

Lemma bookAt_None_None orders k :
  bookAt orders k = None -> bookAt orders (prod_swap k) = None ->
  filter (touches k) orders = [].
Proof.
  unfold bookAt.
  rewrite (list_filter_iff (touches (prod_swap k)) (touches k))
    by apply touches_swap.
  destruct (head (filter (touches k) orders)) as [o|] eqn:Hh;
    [|intros _ _; by apply head_None].
  destruct (decide (isBid k o)); [done|].
  destruct (decide (isBid (prod_swap k) o)); [done|]. intros _ _.
  apply head_Some_elem_of, list_elem_of_filter in Hh as [[?|?] _]; done.
Qed.

Lemma bookAt_swap orders k b :
  bookAt orders k = Some b -> k <> prod_swap k ->
  bookAt orders (prod_swap k) = None.
Proof.
  intros (o & Hh & Hb & _)%bookAt_Some Hne. unfold bookAt.
  rewrite (list_filter_iff (touches (prod_swap k)) (touches k))
    by apply touches_swap.
  rewrite Hh. rewrite decide_False; [done|].
  unfold isBid in *. congruence.
Qed.

Lemma bookAt_snoc_other orders o k :
  ~ touches k o -> bookAt (orders ++ [o]) k = bookAt orders k.
Proof.
  intros Hn. unfold bookAt. rewrite !filter_snoc_order.
  rewrite (decide_False (P := touches k o)) by done.
  rewrite (decide_False (P := isBid k o)) by (unfold touches in Hn; tauto).
  rewrite (decide_False (P := isAsk k o)).
  - by rewrite !app_nil_r.
  - unfold isAsk, touches, isBid, prod_swap in *. destruct k. simpl in *.
    intros [H _]. apply Hn. right. congruence.
Qed.

Lemma bookAt_snoc_bid orders o b :
  bookAt orders (BuyToken o, SellToken o) = Some b ->
  bookAt (orders ++ [o]) (BuyToken o, SellToken o) = Some (AddBid o b).
Proof.
  intros (x & Hh & Hb & ->)%bookAt_Some. unfold bookAt.
  rewrite !filter_snoc_order, head_app, Hh.
  rewrite (decide_True (P := isBid _ x)) by done.
  rewrite (decide_True (P := isBid _ o)) by done.
  rewrite (decide_False (P := isAsk _ o)) by (unfold isAsk; tauto).
  by rewrite app_nil_r.
Qed.

Lemma bookAt_snoc_ask orders o b :
  (BuyToken o, SellToken o) <> (SellToken o, BuyToken o) ->
  bookAt orders (SellToken o, BuyToken o) = Some b ->
  bookAt (orders ++ [o]) (SellToken o, BuyToken o) = Some (AddAsk o b).
Proof.
  intros Hne (x & Hh & Hb & ->)%bookAt_Some. unfold bookAt.
  rewrite !filter_snoc_order, head_app, Hh.
  rewrite (decide_True (P := isBid _ x)) by done.
  rewrite (decide_False (P := isBid _ o)) by done.
  rewrite (decide_True (P := isAsk _ o)) by done.
  by rewrite app_nil_r.
Qed.

Lemma bookAt_snoc_new orders o :
  bookAt orders (BuyToken o, SellToken o) = None ->
  bookAt orders (SellToken o, BuyToken o) = None ->
  bookAt (orders ++ [o]) (BuyToken o, SellToken o) =
  Some (mkBook (BuyToken o) (SellToken o) [o] []).
Proof.
  intros H1 H2.
  pose proof (bookAt_None_None orders (BuyToken o, SellToken o) H1 H2) as Hf.
  assert (filter (isBid (BuyToken o, SellToken o)) orders = []) as Hb.
  { apply elem_of_nil_inv. intros x [Hx Hin]%list_elem_of_filter.
    eapply filter_nil_not_elem_of; [exact Hf|by left|exact Hin]. }
  assert (filter (isAsk (BuyToken o, SellToken o)) orders = []) as Ha.
  { apply elem_of_nil_inv. intros x [[Hx _] Hin]%list_elem_of_filter.
    eapply filter_nil_not_elem_of; [exact Hf| |exact Hin].
    right. unfold isBid, prod_swap. simpl. by injection Hx as -> ->. }
  unfold bookAt. rewrite !filter_snoc_order, Hf, Hb, Ha.
  rewrite (decide_True (P := touches _ o)) by (by left).
  rewrite (decide_True (P := isBid _ o)) by done.
  rewrite (decide_False (P := isAsk _ o)) by (unfold isAsk; tauto).
  simpl. by rewrite decide_True by done.
Qed.

Lemma bookSetOf_bookAt (orders : list Order) (k : Address * Address) :
  bookSetOf orders !! k = bookAt orders k.
Proof.
  revert k. induction orders as [|o orders IH] using rev_ind; intros k; [done|].
  rewrite bookSetOf_snoc. unfold placeOrder.
  assert (prod_swap (BuyToken o, SellToken o) = (SellToken o, BuyToken o))
    as Hsw by done.
  destruct (bookSetOf orders !! (BuyToken o, SellToken o)) as [b|] eqn:Hb.
  - rewrite IH in Hb.
    destruct (decide ((BuyToken o, SellToken o) = k)) as [<-|Hk].
    + rewrite lookup_insert_eq. symmetry. by apply bookAt_snoc_bid.
    + rewrite lookup_insert_ne, IH by done.
      destruct (decide ((SellToken o, BuyToken o) = k)) as [<-|Hk'].
      * rewrite <- Hsw.
        rewrite (bookAt_swap _ _ _ Hb) by (rewrite Hsw; done).
        symmetry. apply (bookAt_swap _ _ (AddBid o b));
          [by apply bookAt_snoc_bid|by rewrite Hsw].
      * symmetry. apply bookAt_snoc_other.
        unfold touches, isBid. destruct k. simpl. intros [?|?]; congruence.
  - destruct (bookSetOf orders !! (SellToken o, BuyToken o)) as [b|] eqn:Ha.
    + rewrite IH in Ha, Hb.
      assert ((BuyToken o, SellToken o) <> (SellToken o, BuyToken o)) as Hne.
      { intros E. rewrite E in Hb. congruence. }
      destruct (decide ((SellToken o, BuyToken o) = k)) as [<-|Hk].
      * rewrite lookup_insert_eq. symmetry. by apply bookAt_snoc_ask.
      * rewrite lookup_insert_ne, IH by done.
        destruct (decide ((BuyToken o, SellToken o) = k)) as [<-|Hk'].
        -- rewrite Hb. symmetry.
           pose proof (bookAt_snoc_ask orders o b Hne Ha) as Hs.
           apply bookAt_swap in Hs; [done|]. simpl. congruence.
        -- symmetry. apply bookAt_snoc_other.
           unfold touches, isBid. destruct k. simpl. intros [?|?]; congruence.
    + rewrite IH in Ha, Hb.
      destruct (decide ((BuyToken o, SellToken o) = k)) as [<-|Hk].
      * rewrite lookup_insert_eq. symmetry. by apply bookAt_snoc_new.
      * rewrite lookup_insert_ne, IH by done.
        destruct (decide ((SellToken o, BuyToken o) = k)) as [<-|Hk'].
        -- rewrite Ha. symmetry.
           pose proof (bookAt_snoc_new orders o Hb Ha) as Hs.
           apply bookAt_swap in Hs; [done|]. simpl. congruence.
        -- symmetry. apply bookAt_snoc_other.
           unfold touches, isBid. destruct k. simpl. intros [?|?]; congruence.
Qed.

(** X11. The map [getBooks] builds can be told from the orders alone, key
    by key. There is a book under (a, b) exactly when the first order
    between the tokens a and b, in either direction, buys a for b; its base
    is a and its quote is b, its bids are the orders that buy a for b and
    its asks the orders that sell a for b, each in the order in which the
    orders came. *)
Theorem getBooks_book_by_book (orders : list Order) (k : Address * Address) :
  bookSetOf orders !! k = bookAt orders k.
Proof. apply bookSetOf_bookAt. Qed.

Lemma bookSetOf_lookup_book orders b :
  b ∈ booksOf (bookSetOf orders) <-> exists k, bookSetOf orders !! k = Some b.
Proof.
  unfold booksOf. rewrite list_elem_of_fmap. split.
  - intros ([k b'] & -> & Hin). exists k. by apply elem_of_map_to_list.
  - intros [k Hk]. exists (k, b). split; [done|]. by apply elem_of_map_to_list.
Qed.

Lemma books_no_more_than_orders (books : list Book) :
  Forall (fun b => bids b <> []) books ->
  (length books <= length (ordersOf books))%nat.
Proof.
  induction 1 as [|b books Hb _ IH]; [done|].
  rewrite ordersOf_cons, !length_app. simpl.
  destruct (bids b); [done|]. simpl. lia.
Qed.

(** X12. No book [getBooks] builds is without a bid, since a book is made
    for a bid and only then takes asks; two tokens never get two books, one
    for each direction; and there are never more books than orders. *)
Theorem getBooks_one_book_per_pair (orders : list Order) k b :
  bookSetOf orders !! k = Some b ->
  bids b <> [] /\
  (k <> prod_swap k -> bookSetOf orders !! prod_swap k = None) /\
  (length (booksOf (bookSetOf orders)) <= length orders)%nat.
Proof.
  assert (forall k b, bookSetOf orders !! k = Some b -> bids b <> []) as Hbid.
  { intros k' b'. rewrite bookSetOf_bookAt.
    intros (o & Hh & Ho & ->)%bookAt_Some. simpl.
    apply head_Some_elem_of, list_elem_of_filter in Hh as [_ Hin].
    intros Hnil. eapply filter_nil_not_elem_of; [exact Hnil|exact Ho|exact Hin]. }
  intros Hk. split_and!.
  - by eapply Hbid.
  - intros Hne. rewrite bookSetOf_bookAt in *. by eapply bookAt_swap.
  - rewrite <- (bookSetOf_orders orders) at 2.
    apply books_no_more_than_orders, Forall_forall.
    intros b' [k' Hk']%bookSetOf_lookup_book. by eapply Hbid.
Qed.

Lemma getBooks_one_book_per_pair_witness :
  bids (mkBook TokenA TokenB [bid1; bid3] [askC]) <> [] /\
  ((TokenA, TokenB) <> prod_swap (TokenA, TokenB) ->
   bookSetOf [bid1; askC; bid3] !! prod_swap (TokenA, TokenB) = None) /\
  (length (booksOf (bookSetOf [bid1; askC; bid3])) <= length [bid1; askC; bid3])%nat.
Proof.
  apply (getBooks_one_book_per_pair [bid1; askC; bid3] (TokenA, TokenB)
           (mkBook TokenA TokenB [bid1; bid3] [askC])).
  by vm_compute.
Defined.

(** ** The books of [getBooks] in [arbitrage] *)

Lemma settle_logs book bid ask bA qA s :
  match settle book bid ask bA qA s with
  | Returns f s' =>
      (f = Again book /\ s' = s) \/
      (f = ContinueBookLoop /\
       s' = logged s (mkEntry LvlWarning "can't trade marginal amounts: %v & %v"
                        [AInt bA; AInt qA]))
  | Panic s' => s' = s
  | OutOfFuel => False
  end.
Proof.
  unfold_M. unfold bigDiv.
  repeat (case_match; simpl in *; simplify_eq; try done); eauto.
Qed.

Section NoMismatch.

Variable env : Env.

Lemma iteration_no_mismatch book s :
  wellOriented book ->
  match iteration env book s with
  | Returns f s' =>
      (exists l, logs s' = logs s ++ l /\ Forall (fun e => ~ isMismatch e) l) /\
      match f with
      | Again book' => wellOriented book'
      | _ => True
      end
  | Panic s' => logs s' = logs s
  | OutOfFuel => False
  end.
Proof.
  intros [Hwb Hwa]. unfold iteration.
  assert (exists l, logs s = logs s ++ l /\ Forall (fun e => ~ isMismatch e) l)
    as Hnone by (exists []; by rewrite app_nil_r).
  destruct (HighestBid book) as [[bid b1]|] eqn:Hb; [|done].
  destruct (LowestAsk b1) as [[ask b2]|] eqn:Ha; [|done].
  apply HighestBid_Ok in Hb as (Hb & Hb' & HB1 & HQ1).
  apply LowestAsk_Ok in Ha as (Ha & Ha' & HB2 & HQ2).
  assert (BuyToken bid = Base book /\ SellToken bid = Quote book) as [E1 E2].
  { rewrite Forall_forall in Hwb. apply Hwb. rewrite Hb. apply list_elem_of_here. }
  assert (SellToken ask = Base book /\ BuyToken ask = Quote book) as [E3 E4].
  { rewrite Forall_forall in Hwa. apply Hwa. rewrite <- Hb', Ha.
    apply list_elem_of_here. }
  assert (wellOriented b2) as Hw2.
  { split; rewrite HB2, HQ2, HB1, HQ1.
    - rewrite Ha'. eapply Forall_forall. intros o Ho.
      rewrite Forall_forall in Hwb. apply Hwb. rewrite Hb. by apply list_elem_of_further.
    - eapply Forall_forall. intros o Ho.
      rewrite Forall_forall in Hwa. apply Hwa. rewrite <- Hb', Ha.
      by apply list_elem_of_further. }
  destruct (_ <=? 0); [done|].
  rewrite E1, E3, N.eqb_refl. simpl. rewrite E2, E4, N.eqb_refl. simpl.
  unfold Balance, mbind, M_bind.
  destruct (atomicBalance env _ _) as [bB|e1].
  2:{ simpl. split; [|done]. eexists [_]. split; [reflexivity|].
      repeat constructor. unfold isMismatch. simpl. intros [?|?]; done. }
  destruct (atomicBalance env _ _) as [bQ|e2].
  2:{ simpl. split; [|done]. eexists [_]. split; [reflexivity|].
      repeat constructor. unfold isMismatch. simpl. intros [?|?]; done. }
  match goal with |- context [settle ?b ?x ?y ?p ?q ?st] =>
    pose proof (settle_logs b x y p q st) as Hs;
    destruct (settle b x y p q st) as [f s'| s'|] end; [| |done].
  - destruct Hs as [[-> ->]|[-> ->]]; simpl.
    + split; [|done]. exists []. by rewrite app_nil_r.
    + split; [|done]. eexists [_]. split; [reflexivity|].
      repeat constructor. unfold isMismatch. simpl. intros [?|?]; done.
  - by subst s'.
Qed.

Lemma loop_no_mismatch fuel book s :
  wellOriented book ->
  match loop env fuel book s with
  | Returns _ s' | Panic s' =>
      exists l, logs s' = logs s ++ l /\ Forall (fun e => ~ isMismatch e) l
  | OutOfFuel => True
  end.
Proof.
  revert book s. induction fuel as [|n IH]; intros book s Hw; [done|].
  simpl. unfold mbind, M_bind.
  pose proof (iteration_no_mismatch book s Hw) as Hi.
  destruct (iteration env book s) as [f s1|s1|]; [| |done].
  - destruct Hi as [(l & Hl & Hn) Hf]. destruct f as [book'| |]; [|by exists l..].
    specialize (IH book' s1 Hf).
    destruct (loop env n book' s1) as [u s2|s2|]; [| |done];
      destruct IH as (l2 & Hl2 & Hn2); exists (l ++ l2);
      (split; [by rewrite Hl2, Hl, app_assoc|by apply Forall_app]).
  - exists []. by rewrite Hi, app_nil_r.
Qed.

Lemma forBooks_no_mismatch books s :
  Forall wellOriented books ->
  match forBooks env books s with
  | Returns _ s' | Panic s' =>
      exists l, logs s' = logs s ++ l /\ Forall (fun e => ~ isMismatch e) l
  | OutOfFuel => False
  end.
Proof.
  intros Hw. revert s. induction Hw as [|book rest Hb _ IH]; intros s.
  - exists []. by rewrite app_nil_r.
  - simpl. unfold mbind, M_bind.
    pose proof (loop_no_mismatch (S (length (bids book))) book s Hb) as Hl.
    pose proof (bookLoop_frame env book s) as Hf. unfold bookLoop in *.
    destruct (loop env (S (length (bids book))) book s) as [u s1|s1|]; [|done|done].
    destruct Hl as (l & Hl & Hn). specialize (IH s1).
    destruct (forBooks env rest s1) as [u2 s2|s2|]; [| |done];
      destruct IH as (l2 & Hl2 & Hn2); exists (l ++ l2);
      (split; [by rewrite Hl2, Hl, app_assoc|by apply Forall_app]).
Qed.

End NoMismatch.

Lemma bookSetOf_wellOriented orders :
  Forall wellOriented (booksOf (bookSetOf orders)).
Proof.
  apply Forall_forall. intros b [k Hk]%bookSetOf_lookup_book.
  destruct (bookSetOf_oriented orders k b Hk) as (_ & H1 & H2). by split.
Qed.

(** X13. On the books [getBooks] builds, [arbitrage] never comes upon
    mismatched tokens: whatever the orders and whatever the balance queries
    answer, none of the entries it logs is the one for a base token
    mismatch or the one for a quote token mismatch. *)
Theorem arbitrage_after_getBooks_no_mismatch env (orders : list Order) s :
  match arbitrage env (booksOf (bookSetOf orders)) s with
  | Returns _ s' | Panic s' =>
      exists l, logs s' = logs s ++ l /\ Forall (fun e => ~ isMismatch e) l
  | OutOfFuel => False
  end.
Proof.
  unfold arbitrage, setTwins, getTwins, mbind, M_bind, mret, M_ret.
  match goal with |- context [forBooks env ?bs ?st] =>
    pose proof (forBooks_no_mismatch env bs st (bookSetOf_wellOriented orders)) as Hf;
    destruct (forBooks env bs st) as [u s'|s'|] end; done.
Qed.
